(** * personal-health-dashboard: the PDF analysis backend (backend/main.py)

    A shallow embedding of the upload pipeline: text extraction, the
    1500-character chunker, the per-chunk model client, the result
    aggregator, the websocket subscriber set and the status broadcaster.

    Python [str] values are modelled as [string], JSON documents as the
    inductive [json], the module-level set [active_connections] as a
    [gset], and the coroutines that broadcast, call collaborators or raise
    as computations in a state-and-exception monad [M].  The collaborators
    (websockets, PyPDF2, the model endpoint, [json.loads]) are the fields of
    an environment [env]; what the program does to them is recorded in a
    trace of events.  The [logger] calls change neither the control flow nor
    any value and are left out.  One request is followed on its own: no
    other coroutine changes [active_connections] while it runs. *)

From Stdlib Require Import String Ascii List Arith Lia ZArith DecimalString Sorted.
From stdpp Require Import gmap list.

Local Open Scope string_scope.
Local Open Scope list_scope.
Local Open Scope nat_scope.

(** ** Python strings *)

Module PyStr.

(** [s[i:j]] for non-negative [i] and [j]: the characters at positions
    [i <= p < min j (len s)]; bounds beyond the end are clamped, never an
    error. *)
Definition slice (s : string) (i j : nat) : string := substring i (j - i) s.

(** [sep.join(parts)]. *)
Definition join (sep : string) (parts : list string) : string :=
  String.concat sep parts.

(** [s.endswith(suffix)]. *)
Definition endswith (s suffix : string) : bool :=
  Nat.leb (String.length suffix) (String.length s) &&
  String.eqb (slice s (String.length s - String.length suffix) (String.length s)) suffix.

(** [str(n)] for a non-negative integer. *)
Definition of_nat (n : nat) : string := NilZero.string_of_uint (Nat.to_uint n).

(** The one-character string ["\n"]. *)
Definition newline : string := String (ascii_of_nat 10) EmptyString.

(** The characters of a string, each as a one-character string (what
    iterating over a [str] yields). *)
Fixpoint chars (s : string) : list string :=
  match s with
  | EmptyString => []
  | String c s' => String c EmptyString :: chars s'
  end.

End PyStr.

(** ** Python ranges *)

Module PyRange.

(** The iteration of [range(start, stop, step)] for a positive [step]:
    yield [i] while [i < stop], then advance by [step].  [fuel] bounds
    the number of values. *)
Fixpoint loop (fuel i stop step : nat) : list nat :=
  match fuel with
  | 0 => []
  | S fuel' =>
      if i <? stop then i :: loop fuel' (i + step) stop step else []
  end.

(** [range(start, stop, step)]; at most [stop - start] values are
    produced when [step >= 1]. *)
Definition range (start stop step : nat) : list nat :=
  loop (stop - start) start stop step.

End PyRange.

(** [ceil (a / b)] on naturals, the chunk count of the specification. *)
Definition ceil_div (a b : nat) : nat := (a + b - 1) / b.

(** ** Content chunker (analyze_pdf_content, line 109) *)

(** [[pdf_content[i:i+max_len] for i in range(0, len(pdf_content), max_len)]]. *)
Definition chunk_text (max_len : nat) (pdf_content : string) : list string :=
  map (fun i => PyStr.slice pdf_content i (i + max_len))
      (PyRange.range 0 (String.length pdf_content) max_len).

Definition CHUNK_SIZE : nat := 1500.

Definition content_chunks (pdf_content : string) : list string :=
  chunk_text CHUNK_SIZE pdf_content.

(** ** JSON documents and Python exceptions *)

(** The values [json.loads] and [api_response.json()] produce: [None],
    [bool], [int], [float] (kept as its literal, no operation of the
    program inspects it), [str], [list] and [dict] (in insertion order). *)
#[warnings="-register-all"]
Inductive json : Type :=
| JNull
| JBool (b : bool)
| JInt (z : Z)
| JFloat (literal : string)
| JStr (s : string)
| JArr (items : list json)
| JObj (fields : list (string * json)).

(** The exceptions of the program.  All are subclasses of [Exception], so
    every [except Exception] clause catches each of them.  [External] is an
    exception raised inside a collaborator (the websocket, PyPDF2, aiohttp),
    tagged with its description. *)
Inductive exn : Type :=
| HTTPException (status_code : nat) (detail : string)
| KeyError (key : string)
| TypeError
| AttributeError
| IndexError
| ClientResponseError (status : nat)
| JSONDecodeError
| External (what : string).

(** A fallible pure computation: [inl e] raises [e], [inr x] returns [x]. *)
Definition result (A : Type) : Type := exn + A.

Definition rbind {A B} (r : result A) (k : A -> result B) : result B :=
  match r with
  | inl e => inl e
  | inr x => k x
  end.

Declare Scope result_scope.
Delimit Scope result_scope with result.
Notation "x <- r ;; k" := (rbind r (fun x => k))
  (at level 100, r at next level, right associativity) : result_scope.

Module Py.

(** Lookup in a [dict]: the value stored under key [k]. *)
Fixpoint dict_lookup (k : string) (fields : list (string * json)) : option json :=
  match fields with
  | [] => None
  | (k', v) :: rest => if String.eqb k' k then Some v else dict_lookup k rest
  end.

(** [v[k]] for a string key [k]: defined on a [dict] that has the key. *)
Definition getitem (v : json) (k : string) : result json :=
  match v with
  | JObj fields =>
      match dict_lookup k fields with
      | Some x => inr x
      | None => inl (KeyError k)
      end
  | _ => inl TypeError
  end.

(** [v[i]] for an integer index [i >= 0]; a [dict] from JSON has string keys
    only, so an integer key is always missing. *)
Definition getindex (v : json) (i : nat) : result json :=
  match v with
  | JArr items =>
      match nth_error items i with
      | Some x => inr x
      | None => inl IndexError
      end
  | JStr s =>
      match nth_error (PyStr.chars s) i with
      | Some c => inr (JStr c)
      | None => inl IndexError
      end
  | JObj _ => inl (KeyError (PyStr.of_nat i))
  | _ => inl TypeError
  end.

(** [v.get(k, default)]: only a [dict] has the method. *)
Definition get (v : json) (k : string) (default : json) : result json :=
  match v with
  | JObj fields =>
      match dict_lookup k fields with
      | Some x => inr x
      | None => inr default
      end
  | _ => inl AttributeError
  end.

(** [for item in v]: the items of a list, the characters of a string, the
    keys of a dict; anything else is not iterable. *)
Definition iter (v : json) : result (list json) :=
  match v with
  | JArr items => inr items
  | JStr s => inr (map JStr (PyStr.chars s))
  | JObj fields => inr (map (fun kv => JStr (fst kv)) fields)
  | _ => inl TypeError
  end.

(** The argument check of [sep.join(values)]: every element must be a
    [str]. *)
Fixpoint strs (values : list json) : result (list string) :=
  match values with
  | [] => inr []
  | JStr s :: rest => (ss <- strs rest ;; inr (s :: ss))%result
  | _ :: _ => inl TypeError
  end.

Definition join (sep : string) (values : list json) : result string :=
  (ss <- strs values ;; inr (PyStr.join sep ss))%result.

End Py.

(** ** Result aggregator (analyze_pdf_content, lines 189-194) *)

(** The dictionary built at line 189, one field per key. *)
Record aggregated : Type := Aggregated {
  summary : string;
  abnormal_results : list json;
  charts : list json;
  recommendations : list json
}.

(** [[result["summary"] for result in all_analysis_results]]. *)
Fixpoint summaries (all_analysis_results : list json) : result (list json) :=
  match all_analysis_results with
  | [] => inr []
  | r :: rest =>
      (s <- Py.getitem r "summary" ;;
       ss <- summaries rest ;;
       inr (s :: ss))%result
  end.

(** [[item for result in all_analysis_results for item in result.get(key, [])]]. *)
Fixpoint collect (key : string) (all_analysis_results : list json) : result (list json) :=
  match all_analysis_results with
  | [] => inr []
  | r :: rest =>
      (v <- Py.get r key (JArr []) ;;
       items <- Py.iter v ;;
       more <- collect key rest ;;
       inr (items ++ more))%result
  end.

(** The dictionary display evaluates its values in order: summary first,
    then the three list fields. *)
Definition aggregate (all_analysis_results : list json) : result aggregated :=
  (ss <- summaries all_analysis_results ;;
   s <- Py.join " " ss ;;
   a <- collect "abnormal_results" all_analysis_results ;;
   c <- collect "charts" all_analysis_results ;;
   r <- collect "recommendations" all_analysis_results ;;
   inr (Aggregated s a c r))%result.

(** ** Status events, collaborators and the process state *)

(** A websocket connection, identified by the object's identity. *)
Definition conn : Type := nat.

(** The status messages of the program, one constructor per message
    template, carrying the interpolated values. *)
Inductive status : Type :=
| FileReceived
| FileSize (n : nat)
| ExtractedPage (i n : nat)
| ExtractedChars (n : nat)
| AnalysisCompleted
| ErrorProcessingFile (reason : string)
| AnalyzingReport
| ProcessingChunk (i n : nat)
| SendingRequest (i : nat)
| ReceivedResponse (i : nat)
| ParsedResponse (i : nat)
| ErrorProcessingChunk (i : nat) (reason : string)
| Finalizing.

(** The text of a status message, as the f-strings build it. *)
Definition render (s : status) : string :=
  match s with
  | FileReceived => "File received. Initiating analysis..."
  | FileSize n => "File size: " ++ PyStr.of_nat n ++ " bytes. Extracting content..."
  | ExtractedPage i n => "Extracted page " ++ PyStr.of_nat i ++ " of " ++ PyStr.of_nat n
  | ExtractedChars n =>
      "Extracted " ++ PyStr.of_nat n ++ " characters from PDF. Analyzing content..."
  | AnalysisCompleted => "Analysis successfully completed."
  | ErrorProcessingFile reason => "Error processing file: " ++ reason
  | AnalyzingReport => "Analyzing medical report..."
  | ProcessingChunk i n =>
      "Processing chunk " ++ PyStr.of_nat i ++ " of " ++ PyStr.of_nat n ++ "..."
  | SendingRequest i => "Sending request to AI model for chunk " ++ PyStr.of_nat i
  | ReceivedResponse i => "Received response from AI model for chunk " ++ PyStr.of_nat i
  | ParsedResponse i =>
      "Successfully parsed AI model response for chunk " ++ PyStr.of_nat i
  | ErrorProcessingChunk i reason =>
      "Error processing chunk " ++ PyStr.of_nat i ++ ": " ++ reason
  | Finalizing => "Finalizing analysis results..."
  end%string.

(** The request posted for one chunk (lines 118-168): the endpoint, the
    bearer token, the model name, the system message, and the user prompt,
    whose fixed template text embeds the 1-based section number, the
    section count and the chunk. *)
Record model_request : Type := ModelRequest {
  url : string;
  bearer : string;
  model : string;
  system_content : string;
  section_number : nat;
  section_count : nat;
  section_text : string
}.

(** What [http_session.post] yields when it does not raise: the HTTP status
    and the outcome of [await api_response.json()], which raises or yields
    the document. *)
Record http_response : Type := HttpResponse {
  resp_status : nat;
  resp_json : string + json
}.

(** The collaborators of the program.  Within one request every broadcast
    text and every model request is distinct, so functions of their
    arguments describe any behaviour of the collaborators during it. *)
Record env : Type := Env {
  (** the value of the environment variable FALCON_API_KEY *)
  MODEL_API_KEY : string;
  (** the order in which a Python set is iterated *)
  set_iter : gset conn -> list conn;
  (** [connection.send_json]: [None] when the message is delivered,
      [Some what] when the call raises *)
  send_json : conn -> string -> option string;
  (** [PyPDF2.PdfReader] on the file bytes: it raises, or yields the pages,
      each with the outcome of its [extract_text()] *)
  pdf_reader : list Byte.byte -> string + list (string + string);
  (** [http_session.post]: it raises, or yields a response *)
  http_post : model_request -> string + http_response;
  (** [json.loads] on a string: [None] when it is not a JSON document *)
  json_loads : string -> option json;
  (** [str(error)] *)
  str_exn : exn -> string
}.

(** What the program does, in order. *)
Inductive event : Type :=
| EvBroadcast (s : status)
| EvSend (c : conn) (text : string) (delivered : bool)
| EvRead
| EvPdfReader
| EvExtractText (page_index : nat)
| EvPost (req : model_request)
| EvPostDone (req : model_request) (responded : bool).

(** The module-level set [active_connections], the events so far, and the
    list [all_analysis_results] of the running analysis. *)
Record state : Type := State {
  active_connections : gset conn;
  trace : list event;
  all_analysis_results : list json
}.

Definition with_connections (f : gset conn -> gset conn) (st : state) : state :=
  State (f (active_connections st)) (trace st) (all_analysis_results st).

Definition with_trace (f : list event -> list event) (st : state) : state :=
  State (active_connections st) (f (trace st)) (all_analysis_results st).

Definition with_results (f : list json -> list json) (st : state) : state :=
  State (active_connections st) (trace st) (f (all_analysis_results st)).

(** ** The monad of the coroutines: state and exceptions *)

Definition M (A : Type) : Type := state -> result A * state.

Definition ret {A} (x : A) : M A := fun st => (inr x, st).

Definition bind {A B} (m : M A) (k : A -> M B) : M B :=
  fun st =>
    match m st with
    | (inl e, st') => (inl e, st')
    | (inr x, st') => k x st'
    end.

Definition raise {A} (e : exn) : M A := fun st => (inl e, st).

(** [try: body except Exception as error: handler]; the state changes of
    [body] up to the exception are kept. *)
Definition try_except {A} (body : M A) (handler : exn -> M A) : M A :=
  fun st =>
    match body st with
    | (inl e, st') => handler e st'
    | (inr x, st') => (inr x, st')
    end.

(** [try: body finally: cleanup]. *)
Definition try_finally {A} (body : M A) (cleanup : M unit) : M A :=
  fun st =>
    match body st with
    | (r, st') =>
        match cleanup st' with
        | (inl e, st'') => (inl e, st'')
        | (inr _, st'') => (r, st'')
        end
    end.

Definition get_state : M state := fun st => (inr st, st).

Definition modify (f : state -> state) : M unit := fun st => (inr tt, f st).

Definition log (ev : event) : M unit := modify (with_trace (fun t => t ++ [ev])).

Definition lift {A} (r : result A) : M A :=
  match r with
  | inl e => raise e
  | inr x => ret x
  end.

(** The outcome of a collaborator call. *)
Definition external {A} (r : string + A) : result A :=
  match r with
  | inl what => inl (External what)
  | inr x => inr x
  end.

Declare Scope monad_scope.
Delimit Scope monad_scope with monad.
Notation "x <- m ;; k" := (bind m (fun x => k))
  (at level 100, m at next level, right associativity) : monad_scope.
Notation "m ;; k" := (bind m (fun _ => k))
  (at level 100, right associativity) : monad_scope.
Local Open Scope monad_scope.

(** [for index, item in enumerate(items): body(index, item)], counting
    from [index]. *)
Fixpoint for_enumerate {A} (body : nat -> A -> M unit) (index : nat) (items : list A)
  : M unit :=
  match items with
  | [] => ret tt
  | item :: rest => body index item ;; for_enumerate body (S index) rest
  end.

(** ** Progress broadcaster (lines 37-54) *)

Module PySet.

(** [s.add(x)]. *)
Definition add (s : gset conn) (x : conn) : gset conn := {[x]} ∪ s.

(** [s.remove(x)]: raises [KeyError] (of the element, here printed as its
    number) when [x] is not a member. *)
Definition remove (s : gset conn) (x : conn) : result (gset conn) :=
  if decide (x ∈ s) then inr (s ∖ {[x]}) else inl (KeyError (PyStr.of_nat x)).

End PySet.

(** [active_connections.add(websocket)] (line 42). *)
Definition active_connections_add (websocket : conn) : M unit :=
  modify (with_connections (fun s => PySet.add s websocket)).

(** [active_connections.remove(websocket)] (line 49). *)
Definition active_connections_remove (websocket : conn) : M unit :=
  st <- get_state ;;
  s <- lift (PySet.remove (active_connections st) websocket) ;;
  modify (with_connections (fun _ => s)).

(** The handler of one websocket, once the handshake is accepted: the
    receive loop ends only when [receive_text] raises ([disconnect]);
    [meanwhile] is what the rest of the process does to the state while the
    handler waits. *)
Definition websocket_handler (websocket : conn) (meanwhile : M unit) (disconnect : string)
  : M unit :=
  active_connections_add websocket ;;
  try_finally
    (meanwhile ;; raise (External disconnect))
    (active_connections_remove websocket).

(** The loop of [broadcast_status_update] over the connections, in
    iteration order. *)
Fixpoint send_each (E : env) (text : string) (connections : list conn) : M unit :=
  match connections with
  | [] => ret tt
  | connection :: rest =>
      match send_json E connection text with
      | None => log (EvSend connection text true) ;; send_each E text rest
      | Some what => log (EvSend connection text false) ;; raise (External what)
      end
  end.

Definition broadcast_status_update (E : env) (status_message : status) : M unit :=
  log (EvBroadcast status_message) ;;
  st <- get_state ;;
  send_each E (render status_message) (set_iter E (active_connections st)).

(** ** Text extraction (lines 87-101) *)

Fixpoint extract_pages (E : env) (page_count page_index : nat)
  (pages : list (string + string)) (extracted_text : string) : M string :=
  match pages with
  | [] => ret extracted_text
  | page :: rest =>
      log (EvExtractText page_index) ;;
      page_text <- lift (external page) ;;
      let extracted_text := (extracted_text ++ (page_text ++ PyStr.newline))%string in
      broadcast_status_update E (ExtractedPage (page_index + 1) page_count) ;;
      extract_pages E page_count (S page_index) rest extracted_text
  end.

(** The [except] clause logs and re-raises. *)
Definition extract_text_from_pdf (E : env) (pdf_bytes : list Byte.byte) : M string :=
  try_except
    (log EvPdfReader ;;
     pages <- lift (external (pdf_reader E pdf_bytes)) ;;
     extract_pages E (length pages) 0 pages "")
    (fun error => raise error).

(** ** Model client and analysis (lines 104-197) *)

Definition MODEL_API_URL : string := "https://api.ai71.ai/v1/chat/completions".

Definition request_for (E : env) (chunk_index total : nat) (chunk : string)
  : model_request :=
  ModelRequest MODEL_API_URL ("Bearer " ++ MODEL_API_KEY E)%string
    "tiiuae/falcon-180B-chat"
    "You are a medical expert analyzing health reports."
    (chunk_index + 1) total chunk.

(** [api_response.raise_for_status()]. *)
Definition raise_for_status (api_response : http_response) : result unit :=
  if 400 <=? resp_status api_response
  then inl (ClientResponseError (resp_status api_response))
  else inr tt.

(** [result_json["choices"][0]["message"]["content"]]. *)
Definition message_content (result_json : json) : result json :=
  (choices <- Py.getitem result_json "choices" ;;
   choice <- Py.getindex choices 0 ;;
   message <- Py.getitem choice "message" ;;
   Py.getitem message "content")%result.

(** [json.loads(content)]. *)
Definition loads (E : env) (content : json) : result json :=
  match content with
  | JStr s =>
      match json_loads E s with
      | Some v => inr v
      | None => inl JSONDecodeError
      end
  | _ => inl TypeError
  end.

(** The [async with http_session.post(...) as api_response] block
    (lines 172-175). *)
Definition post_request (E : env) (chunk_index : nat) (req : model_request) : M json :=
  log (EvPost req) ;;
  match http_post E req with
  | inl what => log (EvPostDone req false) ;; raise (External what)
  | inr api_response =>
      log (EvPostDone req true) ;;
      lift (raise_for_status api_response) ;;
      result_json <- lift (external (resp_json api_response)) ;;
      broadcast_status_update E (ReceivedResponse (chunk_index + 1)) ;;
      ret result_json
  end.

(** The body of the chunk loop (lines 114-186). *)
Definition process_chunk (E : env) (total chunk_index : nat) (chunk : string) : M unit :=
  broadcast_status_update E (ProcessingChunk (chunk_index + 1) total) ;;
  let req := request_for E chunk_index total chunk in
  try_except
    (broadcast_status_update E (SendingRequest (chunk_index + 1)) ;;
     result_json <- post_request E chunk_index req ;;
     content <- lift (message_content result_json) ;;
     parsed_chunk <- lift (loads E content) ;;
     modify (with_results (fun results => results ++ [parsed_chunk])) ;;
     broadcast_status_update E (ParsedResponse (chunk_index + 1)))
    (fun error =>
       broadcast_status_update E
         (ErrorProcessingChunk (chunk_index + 1) (str_exn E error))).

Definition analyze_pdf_content (E : env) (pdf_content : string) : M aggregated :=
  broadcast_status_update E AnalyzingReport ;;
  let content_chunks := content_chunks pdf_content in
  modify (with_results (fun _ => [])) ;;
  for_enumerate (process_chunk E (length content_chunks)) 0 content_chunks ;;
  st <- get_state ;;
  aggregated_results <- lift (aggregate (all_analysis_results st)) ;;
  broadcast_status_update E Finalizing ;;
  ret aggregated_results.

(** ** Upload endpoint (lines 57-84) *)

(** The uploaded file: its declared name, if any, and its bytes. *)
Record upload_file : Type := UploadFile {
  filename : option string;
  file_bytes : list Byte.byte
}.

Definition handle_pdf_upload (E : env) (uploaded_file : upload_file) : M aggregated :=
  broadcast_status_update E FileReceived ;;
  try_except
    (name <- lift (match filename uploaded_file with
                   | Some name => inr name
                   | None => inl AttributeError
                   end) ;;
     if negb (PyStr.endswith name ".pdf")
     then raise (HTTPException 400 "Only PDF files are allowed")
     else
       log EvRead ;;
       let file_bytes := file_bytes uploaded_file in
       broadcast_status_update E (FileSize (length file_bytes)) ;;
       extracted_text <- extract_text_from_pdf E file_bytes ;;
       broadcast_status_update E (ExtractedChars (String.length extracted_text)) ;;
       analysis_results <- analyze_pdf_content E extracted_text ;;
       broadcast_status_update E AnalysisCompleted ;;
       ret analysis_results)
    (fun error =>
       let error_log_message := ("Error processing file: " ++ str_exn E error)%string in
       broadcast_status_update E (ErrorProcessingFile (str_exn E error)) ;;
       raise (HTTPException 500 error_log_message)).

(** The HTTP status the framework answers with: 200 for a returned value,
    the status of a raised [HTTPException], and 500 for any other
    exception that leaves the endpoint. *)
Definition http_status {A} (r : result A) : nat :=
  match r with
  | inr _ => 200
  | inl (HTTPException status_code _) => status_code
  | inl _ => 500
  end.

Inductive response_class : Type := Success | ClientError | ServerError | OtherClass.

Definition classify (status_code : nat) : response_class :=
  if (200 <=? status_code) && (status_code <? 300) then Success
  else if (400 <=? status_code) && (status_code <? 500) then ClientError
  else if (500 <=? status_code) && (status_code <? 600) then ServerError
  else OtherClass.

(** ** Specification-side definitions *)

(** Every delivery to every connection succeeds. *)
Definition deliveries_ok (E : env) : Prop :=
  forall connection text, send_json E connection text = None.

(** The status messages broadcast, in order. *)
Definition statuses (t : list event) : list status :=
  omap (fun ev => match ev with EvBroadcast s => Some s | _ => None end) t.

(** The model requests posted, in order. *)
Definition posts (t : list event) : list model_request :=
  omap (fun ev => match ev with EvPost req => Some req | _ => None end) t.

(** The events of the model client: calls issued and calls completed. *)
Definition model_events (t : list event) : list event :=
  List.filter (fun ev => match ev with EvPost _ | EvPostDone _ _ => true | _ => false end) t.

(** The events of the extraction collaborator: the file read, the reader
    opened, a page extracted. *)
Definition extraction_events (t : list event) : list event :=
  List.filter (fun ev => match ev with
                    | EvRead | EvPdfReader | EvExtractText _ => true
                    | _ => false
                    end) t.

(** The connections a text was delivered to, in order. *)
Definition delivered_to (text : string) (t : list event) : list conn :=
  omap (fun ev => match ev with
                  | EvSend c text' true => if String.eqb text' text then Some c else None
                  | _ => None
                  end) t.

(** The outcome of the model call and the parsing for one request
    (lines 172-178), apart from the broadcasts in between. *)
Definition chunk_outcome (E : env) (req : model_request) : result json :=
  (api_response <- external (http_post E req) ;;
   _ <- raise_for_status api_response ;;
   result_json <- external (resp_json api_response) ;;
   content <- message_content result_json ;;
   loads E content)%result.

(** The requests of an analysis, one per chunk, in chunk order. *)
Fixpoint requests_from (E : env) (total index : nat) (chunks : list string)
  : list model_request :=
  match chunks with
  | [] => []
  | chunk :: rest => request_for E index total chunk :: requests_from E total (S index) rest
  end.

Definition requests (E : env) (pdf_content : string) : list model_request :=
  requests_from E (length (content_chunks pdf_content)) 0 (content_chunks pdf_content).

(** Whether the endpoint answered a request (with any status) rather than
    the call raising. *)
Definition responded (E : env) (req : model_request) : bool :=
  match http_post E req with
  | inr _ => true
  | inl _ => false
  end.

(** One call issued and completed. *)
Definition call_events (E : env) (req : model_request) : list event :=
  [EvPost req; EvPostDone req (responded E req)].

(** The parsed results of the requests whose call and parsing succeed, in
    order. *)
Definition successes (E : env) (reqs : list model_request) : list json :=
  omap (fun req => match chunk_outcome E req with
                   | inr parsed => Some parsed
                   | inl _ => None
                   end) reqs.

(** A ChunkResult dictionary: a dict whose [summary] is a string and in
    which each of the three list fields, when present, is a list. *)
Definition list_or_missing (key : string) (fields : list (string * json)) : bool :=
  match Py.dict_lookup key fields with
  | None | Some (JArr _) => true
  | Some _ => false
  end.

Definition is_chunk_result (r : json) : bool :=
  match r with
  | JObj fields =>
      match Py.dict_lookup "summary" fields with
      | Some (JStr _) => true
      | _ => false
      end
      && list_or_missing "abnormal_results" fields
      && list_or_missing "charts" fields
      && list_or_missing "recommendations" fields
  | _ => false
  end.

(** The summary of a ChunkResult. *)
Definition summary_of (r : json) : string :=
  match r with
  | JObj fields =>
      match Py.dict_lookup "summary" fields with
      | Some (JStr s) => s
      | _ => ""
      end
  | _ => ""
  end.

(** The items of a list field of a ChunkResult; none when it is missing. *)
Definition field_of (key : string) (r : json) : list json :=
  match r with
  | JObj fields =>
      match Py.dict_lookup key fields with
      | Some (JArr items) => items
      | _ => []
      end
  | _ => []
  end.

(** The aggregate the specification describes. *)
Definition merged (results : list json) : aggregated :=
  Aggregated
    (PyStr.join " " (map summary_of results))
    (concat (map (field_of "abnormal_results") results))
    (concat (map (field_of "charts") results))
    (concat (map (field_of "recommendations") results)).

(** A dict without the key [summary]. *)
Definition lacks_summary (r : json) : bool :=
  match r with
  | JObj fields =>
      match Py.dict_lookup "summary" fields with
      | None => true
      | Some _ => false
      end
  | _ => false
  end.

Definition is_dict (r : json) : bool :=
  match r with
  | JObj _ => true
  | _ => false
  end.

(** The chunk a status message is about. *)
Definition chunk_of (s : status) : option nat :=
  match s with
  | ProcessingChunk i _ | SendingRequest i | ReceivedResponse i
  | ParsedResponse i | ErrorProcessingChunk i _ => Some i
  | _ => None
  end.

(** The chunk a progress message ("Processing chunk i of n...") announces. *)
Definition progress_of (s : status) : option nat :=
  match s with
  | ProcessingChunk i _ => Some i
  | _ => None
  end.

(** One step of the extraction loop:
    [extracted_text += page.extract_text() + "\n"]. *)
Definition add_page (extracted_text page_text : string) : string :=
  (extracted_text ++ (page_text ++ PyStr.newline))%string.

(** The text of the pages, as the extraction loop accumulates it. *)
Definition pages_text (page_texts : list string) : string :=
  fold_left add_page page_texts "".

(** What a computation added to the state: the connections are the same,
    the statuses [ss] were broadcast, the model events [ms] happened, and
    the results list was changed by [f]. *)
Definition after (st st' : state) (ss : list status) (ms : list event)
  (f : list json -> list json) : Prop :=
  active_connections st' = active_connections st /\
  statuses (trace st') = statuses (trace st) ++ ss /\
  model_events (trace st') = model_events (trace st) ++ ms /\
  all_analysis_results st' = f (all_analysis_results st).

(** A computation that issues no model call and leaves the results list
    alone, whether it returns or raises. *)
Definition quiet {A} (m : M A) : Prop :=
  forall st, exists ss, after st (snd (m st)) ss [] (fun results => results).

(** The events of the delivery loop: each connection reached, up to and
    including the first whose send raises. *)
Fixpoint send_events (E : env) (text : string) (connections : list conn) : list event :=
  match connections with
  | [] => []
  | c :: rest =>
      match send_json E c text with
      | None => EvSend c text true :: send_events E text rest
      | Some _ => [EvSend c text false]
      end
  end.

(** The connections before the first whose send raises. *)
Fixpoint delivered_prefix (E : env) (text : string) (connections : list conn) : list conn :=
  match connections with
  | [] => []
  | c :: rest =>
      match send_json E c text with
      | None => c :: delivered_prefix E text rest
      | Some _ => []
      end
  end.

(** What the first failing send raises, if any send fails. *)
Fixpoint first_failure (E : env) (text : string) (connections : list conn) : option string :=
  match connections with
  | [] => None
  | c :: rest =>
      match send_json E c text with
      | None => first_failure E text rest
      | Some what => Some what
      end
  end.

(** The iteration of a set yields each of its members once, in some order. *)
Definition iterates_members (E : env) : Prop :=
  forall S : gset conn, set_iter E S ≡ₚ elements S.

(** The isolation of delivery failures the specification describes: the
    broadcast returns, and every registered subscriber whose own send
    succeeds has received the event. *)
Definition isolates_failures (E : env) (s : status) (st : state) : Prop :=
  fst (broadcast_status_update E s st) = inr tt /\
  forall c, c ∈ active_connections st ->
            send_json E c (render s) = None ->
            In c (delivered_to (render s) (trace (snd (broadcast_status_update E s st)))).

(** What a computation adds to the trace in any run, returning or raising:
    statuses that all satisfy [P] and model events that satisfy [Q]. *)
Definition emits {A} (P : status -> Prop) (Q : list event -> Prop) (m : M A) : Prop :=
  forall st, exists ss ms,
    statuses (trace (snd (m st))) = statuses (trace st) ++ ss /\
    model_events (trace (snd (m st))) = model_events (trace st) ++ ms /\
    Forall P ss /\ Q ms.

(** No model event. *)
Definition silent (ms : list event) : Prop := ms = [].

(** No model event, or the one call for [req], issued and completed. *)
Definition at_most_call (E : env) (req : model_request) (ms : list event) : Prop :=
  ms = [] \/ ms = call_events E req.

(** A status about chunk [i] other than its progress announcement. *)
Definition about_chunk (i : nat) (s : status) : Prop :=
  chunk_of s = Some i /\ progress_of s = None.

(** A computation that leaves the subscriber set as it is, whether it
    returns or raises. *)
Definition keeps_connections {A} (m : M A) : Prop :=
  forall st, active_connections (snd (m st)) = active_connections st.

(** The texts delivered to a connection, in order. *)
Definition received_by (c : conn) (t : list event) : list string :=
  omap (fun ev => match ev with
                  | EvSend c' text true => if c' =? c then Some text else None
                  | _ => None
                  end) t.

(** An exception raised by the send to a subscriber. *)
Definition delivery_failure (E : env) (error : exn) : Prop :=
  exists c text what, send_json E c text = Some what /\ error = External what.

(** A computation that raises only exceptions satisfying [P]. *)
Definition raises_only {A} (P : exn -> Prop) (m : M A) : Prop :=
  forall st error, fst (m st) = inl error -> P error.

(** A result whose summary cannot be joined: it is not a dict, or its
    summary is not a string. *)
Definition bad_summary (r : json) : bool :=
  match r with
  | JObj fields =>
      match Py.dict_lookup "summary" fields with
      | Some (JStr _) => false
      | Some _ => true
      | None => false
      end
  | _ => true
  end.

(** A value the comprehension cannot iterate over. *)
Definition not_iterable (v : json) : bool :=
  match v with
  | JNull | JBool _ | JInt _ | JFloat _ => true
  | _ => false
  end.

(** A dict whose field [key] holds a value that is not iterable. *)
Definition field_not_iterable (key : string) (r : json) : bool :=
  match r with
  | JObj fields =>
      match Py.dict_lookup key fields with
      | Some v => not_iterable v
      | None => false
      end
  | _ => false
  end.

(** A dict whose summary is a string. *)
Definition has_str_summary (r : json) : bool :=
  match r with
  | JObj fields =>
      match Py.dict_lookup "summary" fields with
      | Some (JStr _) => true
      | _ => false
      end
  | _ => false
  end.

(** A [str] value. *)
Definition is_str (v : json) : bool :=
  match v with
  | JStr _ => true
  | _ => false
  end.

(** The response a chunk needs: a JSON object whose ["choices"] is a list
    that starts with an object whose ["message"] is an object whose
    ["content"] is the string [content]. *)
Definition carries_content (result_json : json) (content : string) : Prop :=
  exists fields choice_fields more message_fields,
    result_json = JObj fields /\
    Py.dict_lookup "choices" fields = Some (JArr (JObj choice_fields :: more)) /\
    Py.dict_lookup "message" choice_fields = Some (JObj message_fields) /\
    Py.dict_lookup "content" message_fields = Some (JStr content).

(** The tolerance of failed chunks the specification describes: when the
    model call or the parsing fails for one chunk of the text and succeeds
    for another, the analysis returns the aggregate of the successful
    chunks. *)
Definition tolerates_failed_chunks (E : env) (text : string) (st : state) : Prop :=
  (exists req error, In req (requests E text) /\ chunk_outcome E req = inl error) ->
  (exists req parsed, In req (requests E text) /\ chunk_outcome E req = inr parsed) ->
  fst (analyze_pdf_content E text st) = inr (merged (successes E (requests E text))).

(** Exactly one call per chunk, as the specification describes it: the
    requests posted during the analysis are the requests of its chunks. *)
Definition one_call_per_chunk (E : env) (text : string) (st : state) : Prop :=
  posts (trace (snd (analyze_pdf_content E text st))) = posts (trace st) ++ requests E text.

(** What iterating over the field [key] of a dict yields: the items of a
    list, the characters of a string, the keys of a dict, and nothing when
    the field is missing. *)
Definition field_items (key : string) (r : json) : list json :=
  match r with
  | JObj fields =>
      match Py.dict_lookup key fields with
      | Some (JArr items) => items
      | Some (JStr s) => map JStr (PyStr.chars s)
      | Some (JObj inner) => map (fun kv => JStr (fst kv)) inner
      | _ => []
      end
  | _ => []
  end.

(** ** Example collaborators *)

(** A rendering of [str(error)]. *)
Definition example_str (error : exn) : string :=
  match error with
  | HTTPException status_code detail => PyStr.of_nat status_code ++ ": " ++ detail
  | KeyError key => "'" ++ key ++ "'"
  | TypeError => "bad operand type"
  | AttributeError => "object has no attribute"
  | IndexError => "index out of range"
  | ClientResponseError status => PyStr.of_nat status ++ ", message='error'"
  | JSONDecodeError => "Expecting value"
  | External what => what
  end%string.

(** The double-quote character. *)
Definition dq : string := String (ascii_of_nat 34) EmptyString.

(** The document [{"summary": "B"}]. *)
Definition doc_summary_b : string :=
  ("{" ++ dq ++ "summary" ++ dq ++ ": " ++ dq ++ "B" ++ dq ++ "}")%string.

(** [json.loads] on the documents of the examples. *)
Definition example_loads (s : string) : option json :=
  if String.eqb s "{}" then Some (JObj [])
  else if String.eqb s doc_summary_b then Some (JObj [("summary", JStr "B")])
  else None.

(** A 200 response whose message content is [content]. *)
Definition reply (content : string) : http_response :=
  HttpResponse 200
    (inr (JObj [("choices", JArr [JObj [("message", JObj [("content", JStr content)])]])])).

Definition example_env
  (send : conn -> string -> option string)
  (reader : list Byte.byte -> string + list (string + string))
  (post : model_request -> string + http_response) : env :=
  Env "secret" elements send reader post example_loads example_str.

Definition always_delivered : conn -> string -> option string := fun _ _ => None.

(** A reader that yields one page of 1600 characters, so that the extracted
    text (1601 characters) makes two chunks. *)
Definition long_page : string := string_of_list_ascii (repeat "a"%char 1600).

Definition one_long_page : list Byte.byte -> string + list (string + string) :=
  fun _ => inr [inr long_page].

(** The endpoint answers 503 for the first section and a ChunkResult for
    the others. *)
Definition first_call_fails : model_request -> string + http_response :=
  fun req =>
    if section_number req =? 1
    then inr (HttpResponse 503 (inl "no body"))
    else inr (reply doc_summary_b).

Definition mixed_env : env := example_env always_delivered one_long_page first_call_fails.

(** Every call succeeds and answers the document [{}]. *)
Definition empty_docs_env : env :=
  example_env always_delivered one_long_page (fun _ => inr (reply "{}")).


(** A reader that yields the single page [a]. *)
Definition one_page_env : env :=
  example_env always_delivered (fun _ => inr [inr "a"]) (fun _ => inr (reply "{}")).

(** The websocket of connection 2 is closed: sending to it raises. *)
Definition closed_2_env : env :=
  example_env (fun c _ => if c =? 2 then Some "WebSocketDisconnect" else None)
    one_long_page (fun _ => inr (reply "{}")).

Definition idle : state := State ∅ [] [].

Definition two_subscribers : state := State ({[1]} ∪ {[2]}) [] [].

Definition pdf_upload : upload_file := UploadFile (Some "report.pdf") [].

Definition text_upload : upload_file := UploadFile (Some "report.txt") [].

(** The second of three pages cannot be extracted. *)
Definition bad_page_env : env :=
  example_env always_delivered (fun _ => inr [inr "a"; inl "bad page"; inr "c"])
    (fun _ => inr (reply "{}")).

(** The reader yields no page. *)
Definition no_pages_env : env :=
  example_env always_delivered (fun _ => inr []) first_call_fails.

(** The endpoint answers the first section with the message content
    [content] and the others with 503. *)
Definition second_call_fails (content : string) : model_request -> string + http_response :=
  fun req =>
    if section_number req =? 1
    then inr (reply content)
    else inr (HttpResponse 503 (inl "no body")).

(** The websockets are closed by the time the error status of a chunk is
    sent: that send raises, every other one is delivered. *)
Definition error_status_undelivered : conn -> string -> option string :=
  fun _ text => if String.prefix "Error processing chunk" text then Some "1006" else None.

Definition lost_error_env : env :=
  example_env error_status_undelivered one_long_page (second_call_fails doc_summary_b).

(** Every status is delivered; the first section parses to [{}]. *)
Definition no_summary_env : env :=
  example_env always_delivered one_long_page (second_call_fails "{}").

(** Only the send of "Sending request to AI model for chunk 1" raises. *)
Definition sending_status_undelivered : conn -> string -> option string :=
  fun _ text => if String.eqb text (render (SendingRequest 1)) then Some "1006" else None.

Definition skipped_call_env : env :=
  example_env sending_status_undelivered one_long_page (fun _ => inr (reply doc_summary_b)).

(** Three results whose fields hold lists, strings and a dict. *)
Definition mixed_fields : list json :=
  [JObj [("summary", JStr "A"); ("charts", JArr [JInt 1])];
   JObj [("summary", JStr "B"); ("charts", JStr "ab"); ("abnormal_results", JStr "c")];
   JObj [("summary", JStr "C"); ("charts", JArr [JNull]);
         ("recommendations", JObj [("k", JInt 2)])]].

(** * Facts *)

(** ** Strings *)

Lemma substring_nil n m : substring n m "" = "".
Proof. destruct n, m; reflexivity. Qed.

Lemma length_substring s : forall n m,
  String.length (substring n m s) = Nat.min m (String.length s - n).
Proof.
  induction s as [|c s IH]; intros n m.
  - rewrite substring_nil. simpl. lia.
  - destruct n as [|n], m as [|m]; simpl; rewrite ?IH; simpl; lia.
Qed.

Lemma substring_all s : forall m, String.length s <= m -> substring 0 m s = s.
Proof.
  induction s as [|c s IH]; intros m Hm.
  - apply substring_nil.
  - destruct m as [|m]; simpl in *; [lia|]. f_equal. apply IH. lia.
Qed.

Lemma string_app_cons c (s t : string) : (String c s ++ t)%string = String c (s ++ t).
Proof. reflexivity. Qed.

(** A prefix of [a + b] characters is the prefix of [a] characters followed
    by the next [b] characters. *)
Lemma substring_split s : forall a b,
  substring 0 (a + b) s = (substring 0 a s ++ substring a b s)%string.
Proof.
  induction s as [|c s IH]; intros a b.
  - now rewrite !substring_nil.
  - destruct a as [|a]; simpl.
    + reflexivity.
    + rewrite string_app_cons. f_equal. apply IH.
Qed.

Lemma string_app_nil_r (s : string) : (s ++ "")%string = s.
Proof.
  induction s as [|c s IH]; [reflexivity|].
  rewrite string_app_cons. now rewrite IH.
Qed.

Lemma string_app_assoc (s t u : string) :
  ((s ++ t) ++ u)%string = (s ++ (t ++ u))%string.
Proof.
  induction s as [|c s IH]; [reflexivity|].
  rewrite !string_app_cons. now rewrite IH.
Qed.

Lemma concat_empty_cons x xs :
  String.concat "" (x :: xs) = (x ++ String.concat "" xs)%string.
Proof.
  destruct xs as [|y ys]; simpl.
  - now rewrite string_app_nil_r.
  - reflexivity.
Qed.

Lemma concat_empty_app xs ys :
  String.concat "" (xs ++ ys) = (String.concat "" xs ++ String.concat "" ys)%string.
Proof.
  induction xs as [|x xs IH].
  - reflexivity.
  - rewrite <- app_comm_cons, !concat_empty_cons, IH.
    now rewrite string_app_assoc.
Qed.

(** ** Ranges and the chunk count *)

Lemma ceil_div_0 b : 0 < b -> ceil_div 0 b = 0.
Proof. intros Hb. unfold ceil_div. apply Nat.div_small. lia. Qed.

Lemma ceil_div_small a b : 0 < a -> a <= b -> ceil_div a b = 1.
Proof.
  intros Ha Hab. unfold ceil_div.
  replace (a + b - 1) with ((a - 1) + 1 * b) by lia.
  rewrite Nat.div_add by lia. rewrite Nat.div_small by lia. reflexivity.
Qed.

Lemma ceil_div_step a b : 0 < b -> b < a -> ceil_div a b = S (ceil_div (a - b) b).
Proof.
  intros Hb Hab. unfold ceil_div.
  replace (a + b - 1) with ((a - b + b - 1) + 1 * b) by lia.
  rewrite Nat.div_add by lia. lia.
Qed.

(** The ceiling is the quotient when the division is exact and one more
    otherwise. *)
Lemma ceil_div_cases a b : 0 < b ->
  (a mod b = 0 /\ ceil_div a b = a / b) \/
  (a mod b <> 0 /\ ceil_div a b = S (a / b)).
Proof.
  intros Hb. unfold ceil_div.
  pose proof (Nat.div_mod_eq a b) as Hdm.
  pose proof (Nat.mod_upper_bound a b ltac:(lia)) as Hub.
  destruct (Nat.eq_dec (a mod b) 0) as [Hz|Hnz]; [left|right]; split; try assumption.
  - symmetry. apply (Nat.div_unique _ _ _ (b - 1)); lia.
  - symmetry. apply (Nat.div_unique _ _ _ (a mod b - 1)); lia.
Qed.

(** With enough fuel the loop yields [i, i + step, i + 2 step, ...], one
    value for each multiple of [step] below [stop - i]. *)
Lemma range_loop_spec step (Hstep : 0 < step) : forall fuel i stop,
  stop - i <= fuel ->
  PyRange.loop fuel i stop step =
  map (fun k => i + k * step) (seq 0 (ceil_div (stop - i) step)).
Proof.
  induction fuel as [|fuel IH]; intros i stop Hfuel.
  - replace (stop - i) with 0 by lia. now rewrite ceil_div_0.
  - simpl. destruct (Nat.ltb_spec i stop) as [Hlt|Hge].
    + rewrite IH by lia.
      destruct (Nat.le_gt_cases (stop - i) step) as [Hsmall|Hbig].
      * rewrite (ceil_div_small (stop - i)) by lia.
        replace (stop - (i + step)) with 0 by lia.
        rewrite ceil_div_0 by lia. simpl. f_equal. lia.
      * rewrite (ceil_div_step (stop - i)) by lia.
        replace (stop - (i + step)) with (stop - i - step) by lia.
        change (seq 0 (S ?n)) with (0 :: seq 1 n).
        cbn [seq map]. f_equal; [lia|].
        rewrite <- seq_shift, map_map.
        apply map_ext. intros k. simpl. lia.
    + replace (stop - i) with 0 by lia. now rewrite ceil_div_0.
Qed.

Lemma range_spec stop step : 0 < step ->
  PyRange.range 0 stop step = map (fun k => k * step) (seq 0 (ceil_div stop step)).
Proof.
  intros Hstep. unfold PyRange.range. rewrite range_loop_spec by lia.
  rewrite Nat.sub_0_r. reflexivity.
Qed.

(** ** The chunker *)

Section Chunker.

Variable max_len : nat.
Hypothesis max_len_pos : 0 < max_len.

(** The chunks are the consecutive windows of [max_len] characters. *)
Lemma chunk_text_windows s :
  chunk_text max_len s =
  map (fun k => substring (k * max_len) max_len s)
      (seq 0 (ceil_div (String.length s) max_len)).
Proof using max_len_pos.
  unfold chunk_text. rewrite range_spec by assumption. rewrite map_map.
  apply map_ext. intros k. unfold PyStr.slice. f_equal. lia.
Qed.

Lemma length_chunk_text s :
  length (chunk_text max_len s) = ceil_div (String.length s) max_len.
Proof using max_len_pos.
  rewrite chunk_text_windows. now rewrite length_map, length_seq.
Qed.

Lemma windows_concat s : forall count,
  String.concat "" (map (fun k => substring (k * max_len) max_len s) (seq 0 count)) =
  substring 0 (count * max_len) s.
Proof using max_len_pos.
  induction count as [|count IH].
  - simpl. destruct s; reflexivity.
  - rewrite seq_S, map_app, concat_empty_app, IH. simpl.
    replace (max_len + count * max_len) with (count * max_len + max_len) by lia.
    now rewrite substring_split.
Qed.

(** The windows cover the text, and all but the last are inside it. *)
Lemma ceil_div_covers a : a <= ceil_div a max_len * max_len.
Proof using max_len_pos.
  destruct (ceil_div_cases a max_len max_len_pos) as [[Hm ->]|[Hm ->]];
    pose proof (Nat.div_mod_eq a max_len);
    pose proof (Nat.mod_upper_bound a max_len ltac:(lia)); nia.
Qed.

Lemma ceil_div_inside a k : k < ceil_div a max_len -> k * max_len < a.
Proof using max_len_pos.
  intros Hk.
  destruct (ceil_div_cases a max_len max_len_pos) as [[Hm Hc]|[Hm Hc]];
    rewrite Hc in Hk;
    pose proof (Nat.div_mod_eq a max_len);
    pose proof (Nat.mod_upper_bound a max_len ltac:(lia)); nia.
Qed.

Lemma ceil_div_full a k : S k < ceil_div a max_len -> k * max_len + max_len <= a.
Proof using max_len_pos.
  intros Hk. apply ceil_div_inside in Hk. lia.
Qed.

Lemma concat_chunk_text s : String.concat "" (chunk_text max_len s) = s.
Proof using max_len_pos.
  rewrite chunk_text_windows, windows_concat.
  apply substring_all, ceil_div_covers.
Qed.

Lemma nth_chunk_text s k c :
  nth_error (chunk_text max_len s) k = Some c ->
  k < ceil_div (String.length s) max_len /\
  c = substring (k * max_len) max_len s.
Proof using max_len_pos.
  rewrite chunk_text_windows. intros Hk.
  assert (Hlt : k < ceil_div (String.length s) max_len).
  { assert (Hsome : nth_error
        (map (fun k => substring (k * max_len) max_len s)
             (seq 0 (ceil_div (String.length s) max_len))) k <> None) by congruence.
    apply nth_error_Some in Hsome. now rewrite length_map, length_seq in Hsome. }
  split; [assumption|].
  rewrite nth_error_map in Hk.
  rewrite nth_error_seq in Hk.
  destruct (Nat.ltb_spec k (ceil_div (String.length s) max_len)); [|lia].
  simpl in Hk. now inversion Hk.
Qed.

Lemma length_full_chunk s k c :
  nth_error (chunk_text max_len s) k = Some c ->
  S k < length (chunk_text max_len s) ->
  String.length c = max_len.
Proof using max_len_pos.
  intros Hk Hlt. rewrite length_chunk_text in Hlt.
  apply nth_chunk_text in Hk as [_ ->].
  rewrite length_substring. apply ceil_div_full in Hlt. lia.
Qed.

Lemma length_last_chunk s c :
  nth_error (chunk_text max_len s) (length (chunk_text max_len s) - 1) = Some c ->
  String.length c =
  if String.length s mod max_len =? 0 then max_len else String.length s mod max_len.
Proof using max_len_pos.
  intros Hk. apply nth_chunk_text in Hk as [Hlt ->].
  rewrite length_chunk_text in *. rewrite length_substring.
  pose proof (Nat.div_mod_eq (String.length s) max_len) as Hdm.
  pose proof (Nat.mod_upper_bound (String.length s) max_len ltac:(lia)) as Hub.
  destruct (ceil_div_cases (String.length s) max_len max_len_pos) as [[Hm Hc]|[Hm Hc]];
    rewrite Hc in *.
  - rewrite Hm. simpl. nia.
  - destruct (Nat.eqb_spec (String.length s mod max_len) 0); [lia|].
    replace (S (String.length s / max_len) - 1) with (String.length s / max_len) by lia.
    nia.
Qed.

Lemma chunk_nonempty s c : In c (chunk_text max_len s) -> c <> "".
Proof using max_len_pos.
  intros Hin. apply In_nth_error in Hin as [k Hk].
  apply nth_chunk_text in Hk as [Hlt ->].
  apply ceil_div_inside in Hlt.
  intros Hempty. apply (f_equal String.length) in Hempty.
  rewrite length_substring in Hempty. simpl in Hempty. lia.
Qed.

End Chunker.

Lemma chunk_size_pos : 0 < CHUNK_SIZE.
Proof. unfold CHUNK_SIZE. lia. Qed.

(** C1. For every text [T], the chunks of [T] concatenate, in order, to [T];
    there are [ceil (len T / 1500)] of them (none for the empty text);
    every chunk but the last has exactly 1500 characters; the last has
    [len T mod 1500] characters, or 1500 when 1500 divides [len T]; and no
    chunk is empty. *)
Theorem content_chunks_partition (T : string) :
  String.concat "" (content_chunks T) = T /\
  length (content_chunks T) = ceil_div (String.length T) 1500 /\
  (T = "" -> content_chunks T = []) /\
  (forall k c, nth_error (content_chunks T) k = Some c ->
               S k < length (content_chunks T) -> String.length c = 1500) /\
  (forall c, nth_error (content_chunks T) (length (content_chunks T) - 1) = Some c ->
             String.length c =
             if String.length T mod 1500 =? 0 then 1500 else String.length T mod 1500) /\
  (forall c, In c (content_chunks T) -> c <> "").
Proof.
  unfold content_chunks. pose proof chunk_size_pos as Hpos.
  change 1500 with CHUNK_SIZE.
  split; [apply concat_chunk_text; assumption|].
  split; [apply length_chunk_text; assumption|].
  split.
  { intros ->. apply length_zero_iff_nil.
    rewrite length_chunk_text by assumption. now apply ceil_div_0. }
  split; [intros k c; now apply length_full_chunk|].
  split; [intros c; now apply length_last_chunk|].
  intros c. now apply chunk_nonempty.
Qed.

(** The end-to-end example of the specification: a document of 3200
    characters makes three chunks, of 1500, 1500 and 200 characters. *)
Example content_chunks_3200 :
  map String.length (content_chunks (string_of_list_ascii (repeat "a"%char 3200))) =
  [1500; 1500; 200].
Proof. vm_compute. reflexivity. Qed.

(** ** The aggregator *)

Lemma strs_strings (l : list string) : Py.strs (map JStr l) = inr l.
Proof.
  induction l as [|s l IH]; simpl; [reflexivity|]. now rewrite IH.
Qed.

Lemma is_chunk_result_inv r :
  is_chunk_result r = true ->
  exists fields s,
    r = JObj fields /\
    Py.dict_lookup "summary" fields = Some (JStr s) /\
    list_or_missing "abnormal_results" fields = true /\
    list_or_missing "charts" fields = true /\
    list_or_missing "recommendations" fields = true.
Proof.
  destruct r as [| | | | |items|fields]; simpl; try discriminate.
  intros H. apply andb_prop in H as [H Hr]. apply andb_prop in H as [H Hc].
  apply andb_prop in H as [Hs Ha].
  destruct (Py.dict_lookup "summary" fields) as [[| | | |s| |]|] eqn:Hl;
    try discriminate.
  exists fields, s. auto.
Qed.

Lemma summaries_chunk_results R :
  Forall (fun r => is_chunk_result r = true) R ->
  summaries R = inr (map JStr (map summary_of R)).
Proof.
  induction 1 as [|r R Hr _ IH]; [reflexivity|].
  apply is_chunk_result_inv in Hr as (fields & s & -> & Hs & _).
  simpl. rewrite Hs. simpl. now rewrite IH.
Qed.

(** A field that is missing contributes no item; a field that holds a list
    contributes its items. *)
Lemma get_iter_field key fields :
  list_or_missing key fields = true ->
  (v <- Py.get (JObj fields) key (JArr []) ;; Py.iter v)%result =
  inr (field_of key (JObj fields)).
Proof.
  unfold list_or_missing. simpl.
  destruct (Py.dict_lookup key fields) as [[| | | | |items|]|]; try discriminate;
    reflexivity.
Qed.

Lemma collect_fields key R :
  Forall (fun r => exists fields, r = JObj fields /\ list_or_missing key fields = true) R ->
  collect key R = inr (concat (map (field_of key) R)).
Proof.
  induction 1 as [|r R (fields & -> & Hk) _ IH]; [reflexivity|].
  pose proof (get_iter_field key fields Hk) as Hget.
  cbn [collect map concat]. unfold rbind in *.
  destruct (Py.get (JObj fields) key (JArr [])) as [e|v]; [discriminate|].
  rewrite Hget, IH. reflexivity.
Qed.

Lemma aggregate_merged R :
  Forall (fun r => is_chunk_result r = true) R -> aggregate R = inr (merged R).
Proof.
  intros HR. unfold aggregate, merged.
  rewrite summaries_chunk_results by assumption. cbn [rbind].
  unfold Py.join. rewrite strs_strings. cbn [rbind].
  rewrite !collect_fields; [reflexivity| | |];
    (eapply Forall_impl; [exact HR|]); intros r Hr;
    apply is_chunk_result_inv in Hr as (fields & s & -> & _ & Ha & Hc & Hrec);
    eauto.
Qed.

(** C2. For every sequence [R] of ChunkResult dictionaries, the aggregation
    returns the result whose summary is the summaries joined with one space
    in input order and whose [abnormal_results], [charts] and
    [recommendations] are the in-order concatenations of the corresponding
    fields, a missing field counting as the empty sequence and raising
    nothing; for the empty sequence the summary is the empty string and the
    three lists are empty. *)
Theorem aggregate_chunk_results (R : list json) :
  Forall (fun r => is_chunk_result r = true) R ->
  aggregate R =
    inr (Aggregated
           (PyStr.join " " (map summary_of R))
           (concat (map (field_of "abnormal_results") R))
           (concat (map (field_of "charts") R))
           (concat (map (field_of "recommendations") R))) /\
  (forall key fields, In (JObj fields) R -> Py.dict_lookup key fields = None ->
                      field_of key (JObj fields) = []) /\
  (R = [] -> aggregate R = inr (Aggregated "" [] [] [])).
Proof.
  intros HR. split; [now apply aggregate_merged|]. split.
  - intros key fields _ Hmissing. simpl. now rewrite Hmissing.
  - intros ->. reflexivity.
Qed.

Lemma aggregate_chunk_results_witness :
  aggregate
    [JObj [("summary", JStr "A"); ("abnormal_results", JArr []); ("charts", JArr []);
           ("recommendations", JArr [JStr "x"])];
     JObj [("summary", JStr "B")];
     JObj [("summary", JStr "C"); ("charts", JArr [JInt 1; JInt 2])]]
  = inr (Aggregated "A B C" [] [JInt 1; JInt 2] [JStr "x"]).
Proof.
  refine (proj1 (aggregate_chunk_results _ _)).
  repeat constructor.
Defined.

(** A dictionary without [summary] makes the aggregation raise. *)
Lemma summaries_lacking R :
  Forall (fun r => is_dict r = true) R ->
  Exists (fun r => lacks_summary r = true) R ->
  summaries R = inl (KeyError "summary").
Proof.
  induction 1 as [|r R Hr HR IH]; intros Hex; [now inversion Hex|].
  destruct r as [| | | | | |fields]; try discriminate.
  simpl. destruct (Py.dict_lookup "summary" fields) as [v|] eqn:Hl.
  - simpl. rewrite IH; [reflexivity|].
    inversion Hex as [? ? Hhere|]; subst; [|assumption].
    simpl in Hhere. now rewrite Hl in Hhere.
  - reflexivity.
Qed.

Lemma aggregate_lacking R :
  Forall (fun r => is_dict r = true) R ->
  Exists (fun r => lacks_summary r = true) R ->
  aggregate R = inl (KeyError "summary").
Proof.
  intros HR Hex. unfold aggregate. now rewrite summaries_lacking.
Qed.

(** ** Traces *)

Lemma statuses_app t1 t2 : statuses (t1 ++ t2) = statuses t1 ++ statuses t2.
Proof. apply omap_app. Qed.

Lemma model_events_app t1 t2 :
  model_events (t1 ++ t2) = model_events t1 ++ model_events t2.
Proof. apply List.filter_app. Qed.

Lemma posts_app t1 t2 : posts (t1 ++ t2) = posts t1 ++ posts t2.
Proof. apply omap_app. Qed.

Lemma posts_model_events t : posts (model_events t) = posts t.
Proof.
  induction t as [|ev t IH]; [reflexivity|].
  destruct ev; simpl; try assumption. now rewrite <- IH.
Qed.

Lemma posts_call_events E reqs : posts (flat_map (call_events E) reqs) = reqs.
Proof.
  induction reqs as [|req reqs IH]; [reflexivity|]. simpl. now rewrite IH.
Qed.

Lemma after_refl st : after st st [] [] (fun results => results).
Proof. unfold after. now rewrite !app_nil_r. Qed.

Lemma after_trans st st1 st2 ss1 ss2 ms1 ms2 f1 f2 :
  after st st1 ss1 ms1 f1 ->
  after st1 st2 ss2 ms2 f2 ->
  after st st2 (ss1 ++ ss2) (ms1 ++ ms2) (fun results => f2 (f1 results)).
Proof.
  intros (Hc1 & Hs1 & Hm1 & Hr1) (Hc2 & Hs2 & Hm2 & Hr2). unfold after.
  rewrite Hc2, Hs2, Hm2, Hr2, Hc1, Hs1, Hm1, Hr1, !app_assoc. auto.
Qed.

Lemma after_log st ev :
  after st (snd (log ev st))
    (statuses [ev]) (model_events [ev]) (fun results => results).
Proof.
  unfold after, log, modify, with_trace. simpl.
  now rewrite statuses_app, model_events_app.
Qed.

(** ** The broadcaster *)

(** The deliveries change neither the statuses nor the model events. *)
Lemma send_each_after E text : forall connections st,
  after st (snd (send_each E text connections st)) [] [] (fun results => results).
Proof.
  induction connections as [|c cs IH]; intros st; [apply after_refl|].
  simpl. destruct (send_json E c text) as [what|].
  - apply (after_log st (EvSend c text false)).
  - unfold bind. simpl.
    pose proof (after_trans _ _ _ _ _ _ _ _ _
                  (after_log st (EvSend c text true)) (IH (snd (log (EvSend c text true) st))))
      as H.
    exact H.
Qed.

Lemma send_each_ok E text : deliveries_ok E ->
  forall connections st, fst (send_each E text connections st) = inr tt.
Proof.
  intros Hok. induction connections as [|c cs IH]; intros st; [reflexivity|].
  simpl. rewrite Hok. unfold bind. simpl. apply IH.
Qed.

(** A broadcast records its status whatever the deliveries do. *)
Lemma broadcast_after E s st :
  after st (snd (broadcast_status_update E s st)) [s] [] (fun results => results).
Proof.
  unfold broadcast_status_update, bind, get_state. simpl.
  exact (after_trans _ _ _ _ _ _ _ _ _
           (after_log st (EvBroadcast s))
           (send_each_after E (render s) _ _)).
Qed.

Lemma broadcast_ok E s st : deliveries_ok E ->
  fst (broadcast_status_update E s st) = inr tt.
Proof.
  intros Hok. unfold broadcast_status_update, bind, get_state. simpl.
  now apply send_each_ok.
Qed.

Lemma broadcast_run E s st : deliveries_ok E ->
  exists st', broadcast_status_update E s st = (inr tt, st') /\
              after st st' [s] [] (fun results => results).
Proof.
  intros Hok. exists (snd (broadcast_status_update E s st)). split.
  - rewrite <- (broadcast_ok E s st Hok). apply surjective_pairing.
  - apply broadcast_after.
Qed.

(** The exact events of the delivery loop. *)
Lemma send_each_trace E text : forall connections st,
  trace (snd (send_each E text connections st)) = trace st ++ send_events E text connections.
Proof.
  induction connections as [|c cs IH]; intros st; simpl.
  - now rewrite app_nil_r.
  - destruct (send_json E c text) as [what|]; [reflexivity|].
    unfold bind. simpl. rewrite IH. simpl. now rewrite <- app_assoc.
Qed.

Lemma send_each_first_failure E text : forall connections st,
  fst (send_each E text connections st) =
  match first_failure E text connections with
  | None => inr tt
  | Some what => inl (External what)
  end.
Proof.
  induction connections as [|c cs IH]; intros st; simpl; [reflexivity|].
  destruct (send_json E c text) as [what|]; [reflexivity|].
  unfold bind. simpl. apply IH.
Qed.

Lemma delivered_to_app text t1 t2 :
  delivered_to text (t1 ++ t2) = delivered_to text t1 ++ delivered_to text t2.
Proof. apply omap_app. Qed.

Lemma delivered_send_events E text : forall connections,
  delivered_to text (send_events E text connections) = delivered_prefix E text connections.
Proof.
  induction connections as [|c cs IH]; simpl; [reflexivity|].
  destruct (send_json E c text) as [what|]; simpl.
  - reflexivity.
  - rewrite String.eqb_refl. now rewrite IH.
Qed.

Lemma delivered_prefix_split E text l1 c l2 what :
  Forall (fun c' => send_json E c' text = None) l1 ->
  send_json E c text = Some what ->
  first_failure E text (l1 ++ c :: l2) = Some what /\
  delivered_prefix E text (l1 ++ c :: l2) = l1.
Proof.
  intros Hl1 Hc. induction Hl1 as [|c' l1 Hc' _ [IH1 IH2]]; simpl.
  - now rewrite Hc.
  - rewrite Hc', IH1, IH2. auto.
Qed.

Lemma delivered_prefix_all E text : forall connections,
  first_failure E text connections = None ->
  delivered_prefix E text connections = connections.
Proof.
  induction connections as [|c cs IH]; simpl; [reflexivity|].
  destruct (send_json E c text); [discriminate|]. intros H. now rewrite IH.
Qed.

Lemma extraction_events_app t1 t2 :
  extraction_events (t1 ++ t2) = extraction_events t1 ++ extraction_events t2.
Proof. apply List.filter_app. Qed.

Lemma extraction_send_events E text : forall connections,
  extraction_events (send_events E text connections) = [].
Proof.
  induction connections as [|c cs IH]; simpl; [reflexivity|].
  destruct (send_json E c text); simpl; [reflexivity|assumption].
Qed.

(** A broadcast involves neither the file nor the extractor. *)
Lemma broadcast_extraction_events E s st :
  extraction_events (trace (snd (broadcast_status_update E s st))) =
  extraction_events (trace st).
Proof.
  unfold broadcast_status_update, bind, get_state. simpl.
  rewrite send_each_trace. simpl.
  rewrite !extraction_events_app, extraction_send_events. simpl.
  now rewrite !app_nil_r.
Qed.

(** ** The chunk loop under successful deliveries *)

(** Unfold the monad operations at the head of the goal. *)
Ltac run_step := cbv [bind lift raise ret modify external rbind log try_except get_state].

(** Run the next broadcast, whose deliveries succeed by [Hok]. *)
Ltac run_broadcast Hok :=
  run_step;
  lazymatch goal with
  | |- context [broadcast_status_update ?E ?s ?st] =>
      let st' := fresh "st" in
      let Hrun := fresh "Hrun" in
      let Hc := fresh "Hc" in let Hs := fresh "Hs" in
      let Hm := fresh "Hm" in let Hr := fresh "Hr" in
      destruct (broadcast_run E s st Hok) as (st' & Hrun & Hc & Hs & Hm & Hr);
      rewrite Hrun; clear Hrun;
      cbn [trace active_connections all_analysis_results with_trace with_results] in Hc, Hs, Hm, Hr
  end;
  run_step.

(** Close an [after] goal from the equations of the steps run so far. *)
Ltac close_after :=
  unfold after; cbn [trace active_connections all_analysis_results with_trace with_results];
  repeat first
    [ rewrite statuses_app
    | rewrite model_events_app
    | match goal with
      | H : statuses (trace _) = _ |- _ => rewrite H; clear H
      | H : model_events (trace _) = _ |- _ => rewrite H; clear H
      | H : active_connections _ = _ |- _ => rewrite H; clear H
      | H : all_analysis_results _ = _ |- _ => rewrite H; clear H
      end ];
  unfold statuses, model_events; simpl;
  rewrite <- ?app_assoc; simpl; rewrite ?app_nil_r; auto.

Lemma successes_one E req :
  successes E [req] =
  match chunk_outcome E req with inr parsed => [parsed] | inl _ => [] end.
Proof. unfold successes. simpl. now destruct (chunk_outcome E req). Qed.

(** The chunk failed: the statuses [e] were broadcast and no result added. *)
Ltac chunk_failed i e :=
  eexists; exists e;
  (split; [reflexivity|]); (split; [close_after|]); (split; [repeat constructor|]);
  let e' := fresh in intros e' [= <-]; simpl; auto.

(** One pass of the loop body: the progress status, one call, the result
    appended exactly when the call and the parsing succeed, and the error
    status broadcast otherwise; the body itself never raises. *)
Lemma process_chunk_run E total i chunk st : deliveries_ok E ->
  exists st' ss,
    process_chunk E total i chunk st = (inr tt, st') /\
    after st st' (ProcessingChunk (i + 1) total :: ss)
      (call_events E (request_for E i total chunk))
      (fun results => results ++ successes E [request_for E i total chunk]) /\
    Forall (fun s => chunk_of s = Some (i + 1) /\ progress_of s = None) ss /\
    (forall e, chunk_outcome E (request_for E i total chunk) = inl e ->
               In (ErrorProcessingChunk (i + 1) (str_exn E e)) ss).
Proof.
  intros Hok. unfold process_chunk.
  set (req := request_for E i total chunk).
  rewrite successes_one.
  unfold post_request, call_events, responded, chunk_outcome.
  run_broadcast Hok. run_broadcast Hok.
  destruct (http_post E req) as [what|api_response] eqn:Hpost.
  { run_broadcast Hok.
    chunk_failed i [SendingRequest (i + 1);
                    ErrorProcessingChunk (i + 1) (str_exn E (External what))]. }
  run_step.
  destruct (raise_for_status api_response) as [e1|[]] eqn:Hstatus.
  { run_broadcast Hok.
    chunk_failed i [SendingRequest (i + 1); ErrorProcessingChunk (i + 1) (str_exn E e1)]. }
  destruct (resp_json api_response) as [what|result_json] eqn:Hjson.
  { run_broadcast Hok.
    chunk_failed i [SendingRequest (i + 1);
                    ErrorProcessingChunk (i + 1) (str_exn E (External what))]. }
  run_broadcast Hok.
  destruct (message_content result_json) as [e1|content] eqn:Hcontent.
  { run_broadcast Hok.
    chunk_failed i [SendingRequest (i + 1); ReceivedResponse (i + 1);
                    ErrorProcessingChunk (i + 1) (str_exn E e1)]. }
  destruct (loads E content) as [e1|parsed] eqn:Hloads.
  { run_broadcast Hok.
    chunk_failed i [SendingRequest (i + 1); ReceivedResponse (i + 1);
                    ErrorProcessingChunk (i + 1) (str_exn E e1)]. }
  run_broadcast Hok.
  eexists. exists [SendingRequest (i + 1); ReceivedResponse (i + 1); ParsedResponse (i + 1)].
  split; [reflexivity|]. split; [close_after|]. split; [repeat constructor|].
  intros e [=].
Qed.

Lemma successes_cons E req reqs :
  successes E (req :: reqs) = successes E [req] ++ successes E reqs.
Proof. unfold successes. simpl. now destruct (chunk_outcome E req). Qed.

Lemma chunk_statuses_progress k ss :
  Forall (fun s => chunk_of s = Some k /\ progress_of s = None) ss ->
  omap progress_of ss = [] /\ Forall (eq k) (omap chunk_of ss).
Proof.
  induction 1 as [|s ss [Hc Hp] _ [IH1 IH2]]; [split; [reflexivity|constructor]|].
  simpl. rewrite Hc, Hp. simpl. split; [assumption|]. now constructor.
Qed.

Lemma sorted_block k l1 l2 :
  Forall (eq k) l1 -> Forall (le k) l2 -> StronglySorted le l2 ->
  StronglySorted le (l1 ++ l2).
Proof.
  intros H1 H2 Hs. induction l1 as [|x l1 IH]; [assumption|].
  inversion H1 as [|? ? <- H1']; subst. simpl.
  constructor; [now apply IH|].
  apply Forall_app. split; [|assumption].
  eapply Forall_impl; [exact H1'|]. intros y <-. lia.
Qed.

Lemma chunk_loop_run E total : deliveries_ok E ->
  forall chunks i st,
  exists st' ss,
    for_enumerate (process_chunk E total) i chunks st = (inr tt, st') /\
    after st st' ss
      (flat_map (call_events E) (requests_from E total i chunks))
      (fun results => results ++ successes E (requests_from E total i chunks)) /\
    omap progress_of ss = seq (i + 1) (length chunks) /\
    Forall (le (i + 1)) (omap chunk_of ss) /\
    StronglySorted le (omap chunk_of ss) /\
    (forall k req e,
        nth_error (requests_from E total i chunks) k = Some req ->
        chunk_outcome E req = inl e ->
        In (ErrorProcessingChunk (i + k + 1) (str_exn E e)) ss).
Proof.
  intros Hok. induction chunks as [|chunk chunks IH]; intros i st.
  - exists st, []. simpl. split; [reflexivity|]. split.
    { unfold after. now rewrite !app_nil_r. }
    split; [reflexivity|]. split; [constructor|]. split; [constructor|].
    intros [|k] req e; discriminate.
  - destruct (process_chunk_run E total i chunk st Hok)
      as (st1 & ss1 & Hrun1 & Hafter1 & Hss1 & Herr1).
    destruct (IH (S i) st1) as (st' & ss2 & Hrun2 & Hafter2 & Hprog2 & Hle2 & Hsorted2 & Herr2).
    destruct (chunk_statuses_progress _ _ Hss1) as [Hprog1 Hchunk1].
    exists st', (ProcessingChunk (i + 1) total :: ss1 ++ ss2).
    cbn [for_enumerate requests_from]. unfold bind. rewrite Hrun1, Hrun2.
    split; [reflexivity|]. split.
    { pose proof (after_trans _ _ _ _ _ _ _ _ _ Hafter1 Hafter2) as (Hc & Hs & Hm & Hr).
      unfold after.
      rewrite Hc, Hs, Hm, Hr, (successes_cons E _ (requests_from E total (S i) chunks)).
      rewrite <- !app_assoc. repeat split; reflexivity. }
    split.
    { cbn [omap list_omap progress_of]. rewrite omap_app, Hprog1, Hprog2.
      replace (S i + 1) with (S (i + 1)) by lia. reflexivity. }
    assert (Hle : Forall (le (i + 1)) (omap chunk_of ss1 ++ omap chunk_of ss2)).
    { apply Forall_app. split.
      - eapply Forall_impl; [exact Hchunk1|]. intros y <-. lia.
      - eapply Forall_impl; [exact Hle2|]. intros y Hy. simpl in Hy. lia. }
    split.
    { cbn [omap list_omap chunk_of]. rewrite omap_app. constructor; [lia|assumption]. }
    split.
    { cbn [omap list_omap chunk_of]. rewrite omap_app. constructor; [|assumption].
      apply (sorted_block (i + 1)); try assumption.
      eapply Forall_impl; [exact Hle2|]. intros y Hy. simpl in Hy. lia. }
    intros [|k] req e Hnth Hout; simpl in Hnth.
    + inversion Hnth; subst. right. apply in_or_app. left.
      replace (i + 0 + 1) with (i + 1) by lia. now apply Herr1.
    + right. apply in_or_app. right.
      replace (i + S k + 1) with (S i + k + 1) by lia. now apply (Herr2 k req e).
Qed.

(** The run of an analysis whose deliveries succeed: the result is the
    aggregation of the successful chunks. *)
Lemma analyze_run E text st : deliveries_ok E ->
  exists st' added,
    analyze_pdf_content E text st = (aggregate (successes E (requests E text)), st') /\
    active_connections st' = active_connections st /\
    statuses (trace st') = statuses (trace st) ++ added /\
    model_events (trace st') =
      model_events (trace st) ++ flat_map (call_events E) (requests E text) /\
    omap progress_of added = seq 1 (length (content_chunks text)) /\
    StronglySorted le (omap chunk_of added) /\
    (forall k req e,
        nth_error (requests E text) k = Some req ->
        chunk_outcome E req = inl e ->
        In (ErrorProcessingChunk (k + 1) (str_exn E e)) added).
Proof.
  intros Hok. unfold analyze_pdf_content, requests.
  run_broadcast Hok.
  match goal with
  | |- context [for_enumerate ?body 0 ?chunks ?s] =>
      destruct (chunk_loop_run E (length (content_chunks text)) Hok chunks 0 s)
        as (st1 & ss & Hrun & (Hc1 & Hs1 & Hm1 & Hr1) & Hprog & _ & Hsorted & Herr);
      rewrite Hrun; clear Hrun
  end.
  cbn [trace active_connections all_analysis_results with_trace with_results fst snd]
    in Hc1, Hs1, Hm1, Hr1.
  rewrite Hr1. cbn [app].
  destruct (aggregate (successes E
              (requests_from E (length (content_chunks text)) 0 (content_chunks text))))
    as [e|agg] eqn:Hagg.
  - exists st1, (AnalyzingReport :: ss).
    split; [reflexivity|]. split; [congruence|].
    split; [rewrite Hs1, Hs, <- app_assoc; reflexivity|].
    split; [rewrite Hm1, Hm, app_nil_r; reflexivity|].
    split; [exact Hprog|]. split; [exact Hsorted|].
    intros k req e' Hk Hout. right. exact (Herr k req e' Hk Hout).
  - run_broadcast Hok.
    eexists. exists (AnalyzingReport :: ss ++ [Finalizing]).
    split; [reflexivity|]. split; [congruence|].
    split; [rewrite Hs0, Hs1, Hs, <- !app_assoc; reflexivity|].
    split; [rewrite Hm0, Hm1, Hm, !app_nil_r; reflexivity|].
    split; [cbn [omap list_omap progress_of]; rewrite omap_app; simpl;
            now rewrite app_nil_r|].
    split; [cbn [omap list_omap chunk_of]; rewrite omap_app; simpl;
            now rewrite app_nil_r|].
    intros k req e' Hk Hout. right. apply in_or_app. left.
    exact (Herr k req e' Hk Hout).
Qed.

(** ** Computations without model calls *)

Lemma quiet_ret {A} (x : A) : quiet (ret x).
Proof. intros st. exists []. apply after_refl. Qed.

Lemma quiet_raise {A} e : quiet (@raise A e).
Proof. intros st. exists []. apply after_refl. Qed.

Lemma quiet_lift {A} (r : result A) : quiet (lift r).
Proof. destruct r; [apply quiet_raise|apply quiet_ret]. Qed.

Lemma quiet_bind {A B} (m : M A) (k : A -> M B) :
  quiet m -> (forall x, quiet (k x)) -> quiet (bind m k).
Proof.
  intros Hm Hk st. unfold bind. destruct (Hm st) as [ss1 H1].
  destruct (m st) as [[e|x] st1]; simpl in *.
  - now exists ss1.
  - destruct (Hk x st1) as [ss2 H2]. exists (ss1 ++ ss2).
    exact (after_trans _ _ _ _ _ _ _ _ _ H1 H2).
Qed.

Lemma quiet_try_except {A} (body : M A) handler :
  quiet body -> (forall e, quiet (handler e)) -> quiet (try_except body handler).
Proof.
  intros Hm Hk st. unfold try_except. destruct (Hm st) as [ss1 H1].
  destruct (body st) as [[e|x] st1]; simpl in *.
  - destruct (Hk e st1) as [ss2 H2]. exists (ss1 ++ ss2).
    exact (after_trans _ _ _ _ _ _ _ _ _ H1 H2).
  - now exists ss1.
Qed.

Lemma quiet_log ev : model_events [ev] = [] -> quiet (log ev).
Proof.
  intros Hev st. exists (statuses [ev]).
  pose proof (after_log st ev) as H. now rewrite Hev in H.
Qed.

Lemma quiet_broadcast E s : quiet (broadcast_status_update E s).
Proof. intros st. exists [s]. apply broadcast_after. Qed.

Lemma quiet_extract_pages E n : forall pages i acc, quiet (extract_pages E n i pages acc).
Proof.
  induction pages as [|page pages IH]; intros i acc; simpl.
  - apply quiet_ret.
  - apply quiet_bind; [now apply quiet_log|]. intros _.
    apply quiet_bind; [apply quiet_lift|]. intros page_text.
    apply quiet_bind; [apply quiet_broadcast|]. intros _. apply IH.
Qed.

Lemma quiet_extract E pdf_bytes : quiet (extract_text_from_pdf E pdf_bytes).
Proof.
  unfold extract_text_from_pdf. apply quiet_try_except; [|intros e; apply quiet_raise].
  apply quiet_bind; [now apply quiet_log|]. intros _.
  apply quiet_bind; [apply quiet_lift|]. intros pages. apply quiet_extract_pages.
Qed.

(** The broadcaster returns or raises what a delivery raised. *)
Lemma send_each_result E text : forall connections st,
  fst (send_each E text connections st) = inr tt \/
  exists what, fst (send_each E text connections st) = inl (External what).
Proof.
  induction connections as [|c cs IH]; intros st; [now left|].
  simpl. destruct (send_json E c text) as [what|].
  - right. now exists what.
  - unfold bind. simpl. apply IH.
Qed.

Lemma broadcast_result E s st :
  fst (broadcast_status_update E s st) = inr tt \/
  exists what, fst (broadcast_status_update E s st) = inl (External what).
Proof.
  unfold broadcast_status_update, bind, get_state. simpl. apply send_each_result.
Qed.

(** ** Extraction *)

Lemma extract_pages_returns E n : deliveries_ok E ->
  forall texts i acc st,
    fst (extract_pages E n i (map inr texts) acc st) = inr (fold_left add_page texts acc).
Proof.
  intros Hok. induction texts as [|t texts IH]; intros i acc st; [reflexivity|].
  cbn [extract_pages map fold_left]. run_broadcast Hok. apply IH.
Qed.

Lemma extract_pages_returned E n : forall pages i acc st text,
  fst (extract_pages E n i pages acc st) = inr text ->
  exists texts, pages = map inr texts /\ text = fold_left add_page texts acc.
Proof.
  induction pages as [|page pages IH]; intros i acc st text.
  - simpl. intros [= <-]. now exists [].
  - cbn [extract_pages]. run_step. destruct page as [what|t]; [discriminate|].
    match goal with
    | |- context [broadcast_status_update ?E ?s ?st] =>
        destruct (broadcast_status_update E s st) as [[e|[]] st1]; [discriminate|]
    end.
    intros H. apply IH in H as (texts & -> & ->). now exists (t :: texts).
Qed.

Lemma fold_add_page texts : forall acc,
  fold_left add_page texts acc =
  (acc ++ String.concat "" (map (fun t => t ++ PyStr.newline)%string texts))%string.
Proof.
  induction texts as [|t texts IH]; intros acc.
  - simpl. now rewrite string_app_nil_r.
  - cbn [fold_left map]. rewrite IH, concat_empty_cons. unfold add_page.
    now rewrite string_app_assoc.
Qed.

Lemma join_newline_trailing t texts :
  String.concat "" (map (fun t => t ++ PyStr.newline)%string (t :: texts)) =
  (PyStr.join PyStr.newline (t :: texts) ++ PyStr.newline)%string.
Proof.
  unfold PyStr.join. revert t. induction texts as [|t' texts IH]; intros t.
  - simpl. reflexivity.
  - cbn [map]. rewrite concat_empty_cons. cbn [map] in IH. rewrite IH.
    cbn [String.concat]. now rewrite !string_app_assoc.
Qed.

Lemma try_reraise {A} (m : M A) st : try_except m (fun e => raise e) st = m st.
Proof. unfold try_except, raise. now destruct (m st) as [[e|x] st']. Qed.

Lemma extract_returns E pdf_bytes st texts : deliveries_ok E ->
  pdf_reader E pdf_bytes = inr (map inr texts) ->
  fst (extract_text_from_pdf E pdf_bytes st) = inr (pages_text texts).
Proof.
  intros Hok Hreader. unfold extract_text_from_pdf. rewrite try_reraise.
  run_step. rewrite Hreader. run_step. now apply extract_pages_returns.
Qed.

Lemma extract_returned E pdf_bytes st texts text :
  pdf_reader E pdf_bytes = inr (map inr texts) ->
  fst (extract_text_from_pdf E pdf_bytes st) = inr text ->
  text = pages_text texts.
Proof.
  intros Hreader. unfold extract_text_from_pdf. rewrite try_reraise.
  run_step. rewrite Hreader. run_step. intros H.
  apply extract_pages_returned in H as (texts' & Heq & ->).
  assert (texts' = texts) as ->; [|reflexivity].
  clear -Heq. revert texts' Heq.
  induction texts as [|t texts IH]; intros [|t' texts']; simpl; try discriminate; auto.
  intros [= -> H]. f_equal. now apply IH.
Qed.

(** The response of the endpoint for an upload that passes validation and
    extraction, when the deliveries succeed. *)
Lemma handle_run E uploaded_file name texts st : deliveries_ok E ->
  filename uploaded_file = Some name ->
  PyStr.endswith name ".pdf" = true ->
  pdf_reader E (file_bytes uploaded_file) = inr (map inr texts) ->
  fst (handle_pdf_upload E uploaded_file st) =
  match aggregate (successes E (requests E (pages_text texts))) with
  | inr analysis_results => inr analysis_results
  | inl error =>
      inl (HTTPException 500 ("Error processing file: " ++ str_exn E error)%string)
  end.
Proof.
  intros Hok Hname Hpdf Hreader. unfold handle_pdf_upload.
  run_broadcast Hok. rewrite Hname, Hpdf. cbn [negb]. run_broadcast Hok.
  match goal with
  | |- context [extract_text_from_pdf ?E ?b ?s] =>
      pose proof (extract_returns E b s texts Hok Hreader) as Hext;
      destruct (extract_text_from_pdf E b s) as [r st2]; simpl in Hext; subst r
  end.
  run_broadcast Hok.
  match goal with
  | |- context [analyze_pdf_content ?E ?t ?s] =>
      destruct (analyze_run E t s Hok) as (st4 & added & Hrun & _);
      rewrite Hrun; clear Hrun
  end.
  destruct (aggregate _) as [e|agg].
  - run_broadcast Hok. reflexivity.
  - run_broadcast Hok. reflexivity.
Qed.

(** ** The analysis in any run *)

Section Emits.

Context {A B : Type} (P : status -> Prop).

Lemma emits_pure (Q : list event -> Prop) (m : M A) :
  (forall st, trace (snd (m st)) = trace st) -> Q [] -> emits P Q m.
Proof.
  intros Hm HQ st. exists [], []. rewrite Hm, !app_nil_r. auto.
Qed.

Lemma emits_broadcast (Q : list event -> Prop) E s :
  P s -> Q [] -> emits P Q (broadcast_status_update E s).
Proof.
  intros HP HQ st. exists [s], [].
  destruct (broadcast_after E s st) as (_ & Hs & Hm & _). auto.
Qed.

Lemma emits_bind (Q1 Q2 Q : list event -> Prop) (m : M A) (k : A -> M B) :
  emits P Q1 m -> (forall x, emits P Q2 (k x)) ->
  (forall a, Q1 a -> Q a) -> (forall a b, Q1 a -> Q2 b -> Q (a ++ b)) ->
  emits P Q (bind m k).
Proof.
  intros Hm Hk H1 H12 st. unfold bind.
  destruct (Hm st) as (ss1 & ms1 & Hs1 & Hm1 & HP1 & HQ1).
  destruct (m st) as [[e|x] st1]; cbn [fst snd] in *.
  - exists ss1, ms1. auto.
  - destruct (Hk x st1) as (ss2 & ms2 & Hs2 & Hm2 & HP2 & HQ2).
    exists (ss1 ++ ss2), (ms1 ++ ms2).
    rewrite Hs2, Hm2, Hs1, Hm1, !app_assoc.
    split; [reflexivity|]. split; [reflexivity|]. split; [|auto].
    apply Forall_app. auto.
Qed.

Lemma emits_try_except (Q1 Q2 Q : list event -> Prop) (body : M A) handler :
  emits P Q1 body -> (forall e, emits P Q2 (handler e)) ->
  (forall a, Q1 a -> Q a) -> (forall a b, Q1 a -> Q2 b -> Q (a ++ b)) ->
  emits P Q (try_except body handler).
Proof.
  intros Hm Hk H1 H12 st. unfold try_except.
  destruct (Hm st) as (ss1 & ms1 & Hs1 & Hm1 & HP1 & HQ1).
  destruct (body st) as [[e|x] st1]; cbn [fst snd] in *.
  - destruct (Hk e st1) as (ss2 & ms2 & Hs2 & Hm2 & HP2 & HQ2).
    exists (ss1 ++ ss2), (ms1 ++ ms2).
    rewrite Hs2, Hm2, Hs1, Hm1, !app_assoc.
    split; [reflexivity|]. split; [reflexivity|]. split; [|auto].
    apply Forall_app. auto.
  - exists ss1, ms1. auto.
Qed.

End Emits.

Lemma emits_lift {A} P (r : result A) : emits P silent (lift r).
Proof. apply emits_pure; [|reflexivity]. intros st. now destruct r. Qed.

(** A posted request is always followed by its completion. *)
Lemma emits_post_request P E i req :
  P (ReceivedResponse (i + 1)) ->
  emits P (fun ms => ms = call_events E req) (post_request E i req).
Proof.
  intros HP st. unfold post_request, call_events, responded. run_step.
  destruct (http_post E req) as [what|api_response].
  - exists [], [EvPost req; EvPostDone req false]. cbn [fst snd with_trace trace].
    rewrite !statuses_app, !model_events_app. simpl. rewrite !app_nil_r, <- app_assoc.
    auto.
  - set (st2 := with_trace _ (with_trace _ st)).
    assert (Hrest : emits P silent
              (bind (lift (raise_for_status api_response)) (fun _ =>
               bind (lift (external (resp_json api_response))) (fun result_json =>
               bind (broadcast_status_update E (ReceivedResponse (i + 1))) (fun _ =>
               ret result_json))))).
    { apply (emits_bind P silent silent); [apply emits_lift| |auto|intros a b -> ->; reflexivity].
      intros _.
      apply (emits_bind P silent silent); [apply emits_lift| |auto|intros a b -> ->; reflexivity].
      intros result_json.
      apply (emits_bind P silent silent);
        [now apply emits_broadcast| |auto|intros a b -> ->; reflexivity].
      intros _. apply emits_pure; [reflexivity|reflexivity]. }
    destruct (Hrest st2) as (ss & ms & Hs & Hm & HPs & ->).
    exists ss, [EvPost req; EvPostDone req true].
    unfold bind, lift, raise, ret, external in Hs, Hm. unfold external.
    rewrite Hs, Hm. subst st2. cbn [with_trace trace].
    rewrite !statuses_app, !model_events_app. simpl. rewrite !app_nil_r, <- app_assoc.
    auto.
Qed.

Lemma at_most_silent E req a b : at_most_call E req a -> silent b -> at_most_call E req (a ++ b).
Proof. intros Ha ->. now rewrite app_nil_r. Qed.

(** The [try] statement of the loop body: at most one call, whatever fails. *)
Lemma emits_chunk_try E total i chunk :
  emits (about_chunk (i + 1)) (at_most_call E (request_for E i total chunk))
    (try_except
       (bind (broadcast_status_update E (SendingRequest (i + 1))) (fun _ =>
        bind (post_request E i (request_for E i total chunk)) (fun result_json =>
        bind (lift (message_content result_json)) (fun content =>
        bind (lift (loads E content)) (fun parsed_chunk =>
        bind (modify (with_results (fun results => results ++ [parsed_chunk]))) (fun _ =>
        broadcast_status_update E (ParsedResponse (i + 1))))))))
       (fun error =>
          broadcast_status_update E
            (ErrorProcessingChunk (i + 1) (str_exn E error)))).
Proof.
  set (req := request_for E i total chunk).
  set (P := about_chunk (i + 1)).
  assert (Hsil : forall a b, silent a -> silent b -> silent (a ++ b))
    by (intros a b -> ->; reflexivity).
  apply (emits_try_except P (at_most_call E req) silent);
    [ |intros e; apply emits_broadcast; [split; reflexivity|reflexivity]
      |auto|apply at_most_silent].
  apply (emits_bind P silent (at_most_call E req));
    [apply emits_broadcast; [split; reflexivity|reflexivity]| |now left
     |intros a b -> Hb; exact Hb].
  intros _.
  apply (emits_bind P (fun ms => ms = call_events E req) silent);
    [apply emits_post_request; split; reflexivity| |intros a ->; now right
     |intros a b -> ->; right; apply app_nil_r].
  intros result_json.
  apply (emits_bind P silent silent); [apply emits_lift| |auto|exact Hsil].
  intros content.
  apply (emits_bind P silent silent); [apply emits_lift| |auto|exact Hsil].
  intros parsed_chunk.
  apply (emits_bind P silent silent);
    [apply emits_pure; reflexivity| |auto|exact Hsil].
  intros _. apply emits_broadcast; [split; reflexivity|reflexivity].
Qed.

(** One pass of the loop body in any run: its progress status first, then
    statuses about the same chunk, and at most one call. *)
Lemma process_chunk_emits E total i chunk st :
  exists ss ms,
    statuses (trace (snd (process_chunk E total i chunk st))) =
      statuses (trace st) ++ ProcessingChunk (i + 1) total :: ss /\
    model_events (trace (snd (process_chunk E total i chunk st))) =
      model_events (trace st) ++ ms /\
    Forall (about_chunk (i + 1)) ss /\
    at_most_call E (request_for E i total chunk) ms.
Proof.
  remember (process_chunk E total i chunk st) as run eqn:Hrun.
  unfold process_chunk in Hrun. unfold bind at 1 in Hrun. cbv zeta in Hrun.
  destruct (broadcast_after E (ProcessingChunk (i + 1) total) st) as (_ & Hs & Hm & _).
  destruct (broadcast_status_update E (ProcessingChunk (i + 1) total) st) as [[e|[]] st1];
    cbn [fst snd] in *; subst run; cbn [fst snd].
  - exists [], []. rewrite Hs, Hm. repeat split; [constructor|now left].
  - destruct (emits_chunk_try E total i chunk st1) as (ss & ms & Hs2 & Hm2 & HP & HQ).
    exists ss, ms. rewrite Hs2, Hm2, Hs, Hm, app_nil_r, <- app_assoc. auto.
Qed.

Lemma about_chunk_statuses k ss :
  Forall (about_chunk k) ss ->
  omap progress_of ss = [] /\ Forall (eq k) (omap chunk_of ss).
Proof. apply chunk_statuses_progress. Qed.

(** The loop in any run: it announces the chunks [index + 1 ...] in order,
    as far as it gets, and calls the model at most once for each, in chunk
    order. *)
Lemma chunk_loop_emits E total : forall chunks i st,
  exists ss called announced,
    statuses (trace (snd (for_enumerate (process_chunk E total) i chunks st))) =
      statuses (trace st) ++ ss /\
    model_events (trace (snd (for_enumerate (process_chunk E total) i chunks st))) =
      model_events (trace st) ++ flat_map (call_events E) called /\
    sublist called (requests_from E total i chunks) /\
    announced <= length chunks /\
    omap progress_of ss = seq (i + 1) announced /\
    Forall (le (i + 1)) (omap chunk_of ss) /\
    StronglySorted le (omap chunk_of ss).
Proof.
  induction chunks as [|chunk chunks IH]; intros i st.
  - exists [], [], 0. simpl. rewrite !app_nil_r.
    repeat split; try constructor.
  - cbn [for_enumerate requests_from]. unfold bind.
    destruct (process_chunk_emits E total i chunk st) as (ss1 & ms1 & Hs1 & Hm1 & HP1 & HQ1).
    destruct (about_chunk_statuses _ _ HP1) as [Hprog1 Hchunk1].
    assert (Hcalled : exists called1,
               ms1 = flat_map (call_events E) called1 /\
               sublist called1 [request_for E i total chunk]).
    { destruct HQ1 as [->| ->].
      - exists []. split; [reflexivity|]. apply sublist_nil_l.
      - exists [request_for E i total chunk]. split; reflexivity. }
    destruct Hcalled as (called1 & -> & Hsub1).
    assert (Hle1 : Forall (le (i + 1)) (omap chunk_of ss1)).
    { eapply Forall_impl; [exact Hchunk1|]. intros y <-. lia. }
    destruct (process_chunk E total i chunk st) as [[e|[]] st1]; cbn [fst snd] in *.
    + exists (ProcessingChunk (i + 1) total :: ss1), called1, 1.
      split; [assumption|]. split; [assumption|].
      split.
      { change (request_for E i total chunk :: requests_from E total (S i) chunks)
          with ([request_for E i total chunk] ++ requests_from E total (S i) chunks).
        rewrite <- (app_nil_r called1). apply sublist_app; [assumption|].
        apply sublist_nil_l. }
      split; [simpl; lia|].
      cbn [omap list_omap progress_of chunk_of]. rewrite Hprog1.
      split; [reflexivity|]. split; [constructor; [lia|assumption]|].
      constructor; [|assumption].
      rewrite <- (app_nil_r (omap chunk_of ss1)).
      apply (sorted_block (i + 1)); [assumption|constructor|constructor].
    + destruct (IH (S i) st1)
        as (ss2 & called2 & announced & Hs2 & Hm2 & Hsub2 & Hann & Hprog2 & Hle2 & Hsorted2).
      exists (ProcessingChunk (i + 1) total :: ss1 ++ ss2), (called1 ++ called2), (S announced).
      split; [rewrite Hs2, Hs1, <- app_assoc; reflexivity|].
      split; [rewrite Hm2, Hm1, flat_map_app, <- app_assoc; reflexivity|].
      split.
      { change (request_for E i total chunk :: requests_from E total (S i) chunks)
          with ([request_for E i total chunk] ++ requests_from E total (S i) chunks).
        now apply sublist_app. }
      split; [simpl; lia|].
      assert (Hle2' : Forall (le (i + 1)) (omap chunk_of ss2)).
      { eapply Forall_impl; [exact Hle2|]. intros y Hy. simpl in Hy. lia. }
      cbn [omap list_omap progress_of chunk_of]. rewrite !omap_app, Hprog1, Hprog2.
      split; [simpl; replace (S i + 1) with (S (i + 1)) by lia; reflexivity|].
      split; [constructor; [lia|]; apply Forall_app; auto|].
      constructor; [|apply Forall_app; auto].
      apply (sorted_block (i + 1)); assumption.
Qed.

(** The analysis in any run. *)
Lemma analyze_emits E text st :
  exists added called announced,
    statuses (trace (snd (analyze_pdf_content E text st))) = statuses (trace st) ++ added /\
    model_events (trace (snd (analyze_pdf_content E text st))) =
      model_events (trace st) ++ flat_map (call_events E) called /\
    sublist called (requests E text) /\
    announced <= length (content_chunks text) /\
    omap progress_of added = seq 1 announced /\
    StronglySorted le (omap chunk_of added).
Proof.
  remember (analyze_pdf_content E text st) as run eqn:Hrun.
  unfold analyze_pdf_content, requests in *. unfold bind at 1 in Hrun.
  destruct (broadcast_after E AnalyzingReport st) as (_ & Hs & Hm & _).
  destruct (broadcast_status_update E AnalyzingReport st) as [[e|[]] st1];
    cbn [fst snd] in *.
  { subst run. exists [AnalyzingReport], [], 0. cbn [fst snd]. rewrite Hs, Hm.
    repeat split; try constructor. apply sublist_nil_l. lia. }
  cbv [bind lift raise ret modify get_state] in Hrun.
  set (st2 := with_results _ st1) in Hrun.
  destruct (chunk_loop_emits E (length (content_chunks text)) (content_chunks text) 0 st2)
    as (ss & called & announced & Hs2 & Hm2 & Hsub & Hann & Hprog & _ & Hsorted).
  assert (Hst2 : trace st2 = trace st1) by reflexivity. rewrite Hst2 in Hs2, Hm2.
  destruct (for_enumerate _ 0 (content_chunks text) st2) as [[e|[]] st3];
    cbn [fst snd] in *.
  { subst run. exists (AnalyzingReport :: ss), called, announced. cbn [fst snd].
    rewrite Hs2, Hm2, Hs, Hm, app_nil_r, <- app_assoc.
    cbn [omap list_omap progress_of chunk_of app]. auto 10. }
  destruct (aggregate (all_analysis_results st3)) as [e|agg].
  { subst run. exists (AnalyzingReport :: ss), called, announced. cbn [fst snd].
    rewrite Hs2, Hm2, Hs, Hm, app_nil_r, <- app_assoc.
    cbn [omap list_omap progress_of chunk_of app]. auto 10. }
  destruct (broadcast_after E Finalizing st3) as (_ & Hs4 & Hm4 & _).
  exists (AnalyzingReport :: ss ++ [Finalizing]), called, announced.
  assert (Hsnd : snd run = snd (broadcast_status_update E Finalizing st3)).
  { subst run. now destruct (broadcast_status_update E Finalizing st3) as [[?|?] ?]. }
  rewrite Hsnd, Hs4, Hm4, Hs2, Hm2, Hs, Hm, !app_nil_r, <- !app_assoc.
  cbn [omap list_omap progress_of chunk_of]. rewrite !omap_app. simpl.
  rewrite !app_nil_r. auto 10.
Qed.


(** ** Requests and runs *)

Lemma run_eq {A} (m : M A) st r st' : m st = (r, st') -> fst (m st) = r /\ snd (m st) = st'.
Proof. intros ->. auto. Qed.

Lemma seq_strictly_sorted : forall n a, StronglySorted lt (seq a n).
Proof.
  induction n as [|n IH]; intros a; simpl; constructor; [apply IH|].
  apply List.Forall_forall. intros x Hx. apply in_seq in Hx. lia.
Qed.

Lemma section_numbers E total : forall chunks i,
  map section_number (requests_from E total i chunks) = seq (i + 1) (length chunks) /\
  map section_text (requests_from E total i chunks) = chunks.
Proof.
  induction chunks as [|chunk chunks IH]; intros i; [split; reflexivity|].
  destruct (IH (S i)) as [IH1 IH2]. simpl. rewrite IH1, IH2.
  replace (S i + 1) with (S (i + 1)) by lia. split; reflexivity.
Qed.

(** * The claims of the specification *)

(** ** The analysis with failing chunks *)

(** C3 (amended). In a run of the analysis whose broadcasts are all
    delivered, a chunk whose model call or response parsing fails is caught
    inside the loop: its error status is broadcast, it adds nothing to the
    results, and the remaining chunks are still processed (one request is
    posted for every chunk); what the analysis aggregates is exactly the
    results of the successful chunks, in chunk order.  When these results are
    ChunkResult dictionaries, the analysis returns their aggregate, and the
    upload endpoint answers with it as a success (HTTP 200), not as a
    failure. *)
Theorem failed_chunks_are_skipped E text st :
  deliveries_ok E ->
  fst (analyze_pdf_content E text st) = aggregate (successes E (requests E text)) /\
  posts (trace (snd (analyze_pdf_content E text st))) = posts (trace st) ++ requests E text /\
  (forall k req error,
      nth_error (requests E text) k = Some req ->
      chunk_outcome E req = inl error ->
      In (ErrorProcessingChunk (k + 1) (str_exn E error))
         (statuses (trace (snd (analyze_pdf_content E text st))))) /\
  (Forall (fun r => is_chunk_result r = true) (successes E (requests E text)) ->
   fst (analyze_pdf_content E text st) = inr (merged (successes E (requests E text))) /\
   forall uploaded_file name page_texts st0,
     filename uploaded_file = Some name ->
     PyStr.endswith name ".pdf" = true ->
     pdf_reader E (file_bytes uploaded_file) = inr (map inr page_texts) ->
     pages_text page_texts = text ->
     fst (handle_pdf_upload E uploaded_file st0) =
       inr (merged (successes E (requests E text))) /\
     classify (http_status (fst (handle_pdf_upload E uploaded_file st0))) = Success).
Proof.
  intros Hok.
  destruct (analyze_run E text st Hok)
    as (st' & added & Hrun & _ & Hs & Hm & _ & _ & Herr).
  apply run_eq in Hrun as [-> ->].
  split; [reflexivity|].
  split.
  { rewrite <- (posts_model_events (trace st')), Hm, posts_app, posts_model_events.
    now rewrite posts_call_events. }
  split.
  { intros k req error Hk Hout. rewrite Hs. apply in_or_app. right. eauto. }
  intros Hshape. split; [now apply aggregate_merged|].
  intros uploaded_file name page_texts st0 Hname Hpdf Hreader <-.
  rewrite (handle_run E uploaded_file name page_texts st0 Hok Hname Hpdf Hreader).
  rewrite aggregate_merged by assumption. split; reflexivity.
Qed.

Lemma failed_chunks_are_skipped_witness :
  map (chunk_outcome mixed_env) (requests mixed_env (pages_text [long_page])) =
    [inl (ClientResponseError 503); inr (JObj [("summary", JStr "B")])] /\
  fst (analyze_pdf_content mixed_env (pages_text [long_page]) two_subscribers) =
    inr (Aggregated "B" [] [] []) /\
  fst (handle_pdf_upload mixed_env pdf_upload two_subscribers) =
    inr (Aggregated "B" [] [] []).
Proof.
  assert (Hok : deliveries_ok mixed_env) by (intros c text; reflexivity).
  assert (Hshape : Forall (fun r => is_chunk_result r = true)
                     (successes mixed_env (requests mixed_env (pages_text [long_page]))))
    by (vm_compute; repeat constructor).
  destruct (failed_chunks_are_skipped mixed_env (pages_text [long_page]) two_subscribers Hok)
    as (_ & _ & _ & Hsuccess).
  destruct (Hsuccess Hshape) as [Hres Hupload].
  destruct (Hupload pdf_upload "report.pdf" [long_page] two_subscribers
              eq_refl eq_refl eq_refl eq_refl) as [Hresp _].
  split; [vm_compute; reflexivity|].
  split.
  - rewrite Hres. vm_compute. reflexivity.
  - rewrite Hresp. vm_compute. reflexivity.
Defined.

(** C3 (counterexample). A failed chunk beside a successful one does not
    always leave the request a success.  In the first run the call for
    chunk 1 succeeds and the one for chunk 2 is answered 503, and the send of
    the status "Error processing chunk 2: ..." raises: that broadcast is in
    the [except] clause of the loop body, inside no [try] of the analysis, so
    the exception leaves the analysis and the endpoint answers 500.  In the
    second run every status is delivered, chunk 1 parses to [{}] and chunk 2
    is answered 503: the aggregation of the one successful result raises
    [KeyError], and the endpoint answers 500. *)
Lemma failed_chunk_fails_request :
  map (chunk_outcome lost_error_env) (requests lost_error_env (pages_text [long_page])) =
    [inr (JObj [("summary", JStr "B")]); inl (ClientResponseError 503)] /\
  ~ tolerates_failed_chunks lost_error_env (pages_text [long_page]) two_subscribers /\
  fst (analyze_pdf_content lost_error_env (pages_text [long_page]) two_subscribers) =
    inl (External "1006") /\
  fst (handle_pdf_upload lost_error_env pdf_upload two_subscribers) =
    inl (HTTPException 500 "Error processing file: 1006") /\
  deliveries_ok no_summary_env /\
  map (chunk_outcome no_summary_env) (requests no_summary_env (pages_text [long_page])) =
    [inr (JObj []); inl (ClientResponseError 503)] /\
  ~ tolerates_failed_chunks no_summary_env (pages_text [long_page]) two_subscribers /\
  fst (analyze_pdf_content no_summary_env (pages_text [long_page]) two_subscribers) =
    inl (KeyError "summary") /\
  fst (handle_pdf_upload no_summary_env pdf_upload two_subscribers) =
    inl (HTTPException 500 "Error processing file: 'summary'").
Proof.
  assert (Hlost : fst (analyze_pdf_content lost_error_env (pages_text [long_page])
                         two_subscribers) = inl (External "1006"))
    by (vm_compute; reflexivity).
  assert (Hempty : fst (analyze_pdf_content no_summary_env (pages_text [long_page])
                          two_subscribers) = inl (KeyError "summary"))
    by (vm_compute; reflexivity).
  split; [vm_compute; reflexivity|].
  split.
  { unfold tolerates_failed_chunks. rewrite Hlost. intros H.
    enough (Hfalse : @inl exn aggregated (External "1006") =
                     inr (merged (successes lost_error_env
                                    (requests lost_error_env (pages_text [long_page])))))
      by discriminate Hfalse.
    apply H.
    - eexists (request_for lost_error_env 1 2 _), _.
      split; [right; left; vm_compute; reflexivity|vm_compute; reflexivity].
    - eexists (request_for lost_error_env 0 2 _), _.
      split; [left; vm_compute; reflexivity|vm_compute; reflexivity]. }
  split; [exact Hlost|].
  split; [vm_compute; reflexivity|].
  split; [intros c text; reflexivity|].
  split; [vm_compute; reflexivity|].
  split.
  { unfold tolerates_failed_chunks. rewrite Hempty. intros H.
    enough (Hfalse : @inl exn aggregated (KeyError "summary") =
                     inr (merged (successes no_summary_env
                                    (requests no_summary_env (pages_text [long_page])))))
      by discriminate Hfalse.
    apply H.
    - eexists (request_for no_summary_env 1 2 _), _.
      split; [right; left; vm_compute; reflexivity|vm_compute; reflexivity].
    - eexists (request_for no_summary_env 0 2 _), _.
      split; [left; vm_compute; reflexivity|vm_compute; reflexivity]. }
  split; [exact Hempty|].
  vm_compute. reflexivity.
Qed.

(** C9 (amended). In every run of the analysis the chunks are processed
    strictly in sequence: the model events are, for a subsequence [called]
    of the requests (which carry the section numbers 1..n and the chunks in
    order), one call issued and that same call completed (answered or
    raised), so there is at most one call per chunk, none is retried, and
    the call for a later chunk is issued only after the call for an earlier
    one is over; the progress statuses announce the chunks 1, 2, ... in
    strictly increasing order, and the chunk numbers of all per-chunk
    statuses never decrease.  When the broadcasts are delivered, every chunk
    is announced and called: exactly one call per chunk. *)
Theorem chunks_processed_sequentially E text st :
  exists added called announced,
    statuses (trace (snd (analyze_pdf_content E text st))) = statuses (trace st) ++ added /\
    model_events (trace (snd (analyze_pdf_content E text st))) =
      model_events (trace st) ++
      flat_map (fun req => [EvPost req; EvPostDone req (responded E req)]) called /\
    sublist called (requests E text) /\
    map section_number (requests E text) = seq 1 (length (content_chunks text)) /\
    map section_text (requests E text) = content_chunks text /\
    announced <= length (content_chunks text) /\
    omap progress_of added = seq 1 announced /\
    StronglySorted lt (omap progress_of added) /\
    StronglySorted le (omap chunk_of added) /\
    (deliveries_ok E ->
     called = requests E text /\ announced = length (content_chunks text)).
Proof.
  destruct (analyze_emits E text st)
    as (added & called & announced & Hs & Hm & Hsub & Hann & Hprog & Hsorted).
  destruct (section_numbers E (length (content_chunks text)) (content_chunks text) 0)
    as [Hnum Htext].
  exists added, called, announced.
  repeat (split; [first [assumption | rewrite Hprog; apply seq_strictly_sorted]|]).
  intros Hok.
  destruct (analyze_run E text st Hok)
    as (st' & added' & Hrun & _ & Hs' & Hm' & Hprog' & _).
  apply run_eq in Hrun as [_ Hst']. rewrite Hst' in Hs, Hm.
  rewrite Hs' in Hs. apply app_inv_head in Hs. subst added'.
  rewrite Hm' in Hm. apply app_inv_head in Hm.
  apply (f_equal posts) in Hm. rewrite !posts_call_events in Hm.
  split; [now symmetry|].
  rewrite Hprog in Hprog'. apply (f_equal (@length nat)) in Hprog'.
  now rewrite !length_seq in Hprog'.
Qed.

Lemma chunks_processed_sequentially_witness :
  posts (trace (snd (analyze_pdf_content mixed_env (pages_text [long_page]) two_subscribers))) =
    requests mixed_env (pages_text [long_page]) /\
  map section_number (requests mixed_env (pages_text [long_page])) = [1; 2] /\
  omap progress_of
    (statuses
       (trace (snd (analyze_pdf_content mixed_env (pages_text [long_page]) two_subscribers)))) =
    [1; 2].
Proof.
  destruct (chunks_processed_sequentially mixed_env (pages_text [long_page]) two_subscribers)
    as (added & called & announced & Hs & Hm & _ & _ & _ & _ & Hprog & _ & _ & Hall).
  destruct Hall as [-> ->]; [intros c text; reflexivity|].
  split.
  - rewrite <- posts_model_events, Hm. apply posts_call_events.
  - split; [vm_compute; reflexivity|].
    rewrite Hs. cbn [two_subscribers trace statuses omap list_omap app].
    rewrite Hprog. vm_compute. reflexivity.
Defined.

(** C9 (counterexample). Not every chunk is called in every run.  The text
    makes two chunks and only the send of the status "Sending request to AI
    model for chunk 1" raises: that broadcast is inside the [try] of the
    loop body, before the post, so the handler takes over, chunk 1 is never
    posted, and the loop goes on with chunk 2.  The endpoint returns the
    aggregate of chunk 2 alone as a success, having posted one request for
    two chunks. *)
Lemma chunk_call_skipped :
  length (content_chunks (pages_text [long_page])) = 2 /\
  ~ one_call_per_chunk skipped_call_env (pages_text [long_page]) two_subscribers /\
  map section_number
    (posts (trace (snd (analyze_pdf_content skipped_call_env (pages_text [long_page])
                          two_subscribers)))) = [2] /\
  fst (handle_pdf_upload skipped_call_env pdf_upload two_subscribers) =
    inr (Aggregated "B" [] [] []) /\
  map section_number
    (posts (trace (snd (handle_pdf_upload skipped_call_env pdf_upload two_subscribers)))) = [2].
Proof.
  split; [vm_compute; reflexivity|].
  split.
  { unfold one_call_per_chunk. intros H.
    apply (f_equal (@length model_request)) in H. vm_compute in H. discriminate H. }
  split; [vm_compute; reflexivity|].
  split; vm_compute; reflexivity.
Qed.

(** ** A chunk result without a summary *)

(** C10. When every model call of an upload succeeds and parses to a
    dictionary, and one of these dictionaries has no ["summary"] key, the
    aggregation raises [KeyError] out of the analysis (outside the per-chunk
    handler), and the endpoint answers the whole request with a server-side
    error (HTTP 500); whereas a result that only lacks [abnormal_results],
    [charts] and [recommendations] aggregates without error, each missing
    field counting as empty. *)
Theorem missing_summary_fails_request E uploaded_file name page_texts st :
  deliveries_ok E ->
  filename uploaded_file = Some name ->
  PyStr.endswith name ".pdf" = true ->
  pdf_reader E (file_bytes uploaded_file) = inr (map inr page_texts) ->
  Forall (fun req => exists parsed, chunk_outcome E req = inr parsed /\ is_dict parsed = true)
         (requests E (pages_text page_texts)) ->
  Exists (fun req => exists parsed, chunk_outcome E req = inr parsed /\
                                    lacks_summary parsed = true)
         (requests E (pages_text page_texts)) ->
  (forall st', fst (analyze_pdf_content E (pages_text page_texts) st') =
               inl (KeyError "summary")) /\
  fst (handle_pdf_upload E uploaded_file st) =
    inl (HTTPException 500
           ("Error processing file: " ++ str_exn E (KeyError "summary"))%string) /\
  classify (http_status (fst (handle_pdf_upload E uploaded_file st))) = ServerError /\
  (forall s, aggregate [JObj [("summary", JStr s)]] = inr (Aggregated s [] [] [])).
Proof.
  intros Hok Hname Hpdf Hreader Hall Hex.
  assert (Hagg : aggregate (successes E (requests E (pages_text page_texts))) =
                 inl (KeyError "summary")).
  { apply aggregate_lacking.
    - clear Hex. induction Hall as [|req reqs (parsed & Hout & Hdict) _ IH]; [constructor|].
      rewrite successes_cons, successes_one, Hout. now constructor.
    - clear Hall.
      induction Hex as [req reqs (parsed & Hout & Hlacks)|req reqs _ IH];
        rewrite successes_cons, successes_one.
      + rewrite Hout. now constructor.
      + apply Exists_app. now right. }
  split.
  { intros st'. destruct (analyze_run E (pages_text page_texts) st' Hok)
      as (st'' & added & Hrun & _).
    apply run_eq in Hrun as [-> _]. exact Hagg. }
  rewrite (handle_run E uploaded_file name page_texts st Hok Hname Hpdf Hreader), Hagg.
  repeat split; reflexivity.
Qed.

Lemma missing_summary_fails_request_witness :
  map (chunk_outcome empty_docs_env) (requests empty_docs_env (pages_text [long_page])) =
    [inr (JObj []); inr (JObj [])] /\
  fst (handle_pdf_upload empty_docs_env pdf_upload idle) =
    inl (HTTPException 500 "Error processing file: 'summary'").
Proof.
  split; [vm_compute; reflexivity|].
  refine (proj1 (proj2 (missing_summary_fails_request empty_docs_env pdf_upload
                          "report.pdf" [long_page] idle _ eq_refl eq_refl eq_refl _ _))).
  - intros c text. reflexivity.
  - vm_compute. repeat constructor; eexists; split; reflexivity.
  - vm_compute. constructor. eexists; split; reflexivity.
Defined.

(** ** Fatal failures of the endpoint *)



(** ** The extracted text *)

(** C7 (amended). For every sequence of page texts the reader yields, the
    text [extract_text_from_pdf] returns is the concatenation, in page
    order, of each page text followed by a newline: it is returned whenever
    the page broadcasts are delivered, it is the only text the function can
    return, and for at least one page it is the newline-joined page texts
    followed by one trailing newline (N newlines for N pages); for no page
    it is the empty string. *)
Theorem extracted_text_ends_each_page E pdf_bytes st page_texts :
  pdf_reader E pdf_bytes = inr (map inr page_texts) ->
  (forall text, fst (extract_text_from_pdf E pdf_bytes st) = inr text ->
                text = String.concat "" (map (fun t => t ++ PyStr.newline)%string page_texts)) /\
  (deliveries_ok E ->
   fst (extract_text_from_pdf E pdf_bytes st) =
   inr (String.concat "" (map (fun t => t ++ PyStr.newline)%string page_texts))) /\
  (page_texts <> [] ->
   String.concat "" (map (fun t => t ++ PyStr.newline)%string page_texts) =
   (PyStr.join PyStr.newline page_texts ++ PyStr.newline)%string) /\
  (page_texts = [] ->
   String.concat "" (map (fun t => t ++ PyStr.newline)%string page_texts) = "").
Proof.
  intros Hreader.
  assert (Htext : pages_text page_texts =
                  String.concat "" (map (fun t => t ++ PyStr.newline)%string page_texts)).
  { unfold pages_text. now rewrite fold_add_page. }
  split.
  { intros text Hret. rewrite <- Htext.
    now apply (extract_returned E pdf_bytes st). }
  split.
  { intros Hok. rewrite <- Htext. now apply extract_returns. }
  split.
  { destruct page_texts as [|t rest]; [congruence|]. intros _.
    apply join_newline_trailing. }
  intros ->. reflexivity.
Qed.

Lemma extracted_text_ends_each_page_witness :
  fst (extract_text_from_pdf one_page_env [] two_subscribers) = inr ("a" ++ PyStr.newline)%string.
Proof.
  refine (proj1 (proj2 (extracted_text_ends_each_page one_page_env [] two_subscribers ["a"]
                          eq_refl)) _).
  intros c text. reflexivity.
Defined.

(** C7 (counterexample). For the single page ["a"] the extracted text is
    not the newline-joined pages ["a"]: it ends with a newline. *)
Lemma extracted_text_has_trailing_newline :
  pdf_reader one_page_env [] = inr [inr "a"] /\
  fst (extract_text_from_pdf one_page_env [] idle) = inr ("a" ++ PyStr.newline)%string /\
  fst (extract_text_from_pdf one_page_env [] idle) <> inr (PyStr.join PyStr.newline ["a"]).
Proof.
  split; [reflexivity|]. split; [reflexivity|]. vm_compute. discriminate.
Qed.

(** ** Uploads that are not PDF files *)

(** The run of the endpoint for a file whose name does not end in [.pdf]:
    the 400 raised by the validation is caught by the endpoint's own
    [except Exception] clause, broadcast as an error status and replaced by
    a 500. *)
Lemma non_pdf_upload_run E uploaded_file name st st1 :
  filename uploaded_file = Some name ->
  PyStr.endswith name ".pdf" = false ->
  broadcast_status_update E FileReceived st = (inr tt, st1) ->
  handle_pdf_upload E uploaded_file st =
  match broadcast_status_update E
          (ErrorProcessingFile (str_exn E (HTTPException 400 "Only PDF files are allowed")))
          st1
  with
  | (inl e, st') => (inl e, st')
  | (inr _, st') =>
      (inl (HTTPException 500
              ("Error processing file: " ++
               str_exn E (HTTPException 400 "Only PDF files are allowed"))%string), st')
  end.
Proof.
  intros Hname Hpdf Hrun1. unfold handle_pdf_upload. run_step.
  rewrite Hrun1, Hname, Hpdf. reflexivity.
Qed.

(** C4 (the code at uploads that are not PDF files). For every upload whose
    filename does not end in [.pdf], the endpoint reads no byte of the file
    and never invokes the extractor, but the request is answered with HTTP
    500, a server error and not a client error, and, once the initial
    "received" status is out, an error status is broadcast after it. *)
Theorem non_pdf_upload_answers_500 E uploaded_file name st :
  filename uploaded_file = Some name ->
  PyStr.endswith name ".pdf" = false ->
  (exists error, fst (handle_pdf_upload E uploaded_file st) = inl error) /\
  http_status (fst (handle_pdf_upload E uploaded_file st)) = 500 /\
  classify (http_status (fst (handle_pdf_upload E uploaded_file st))) = ServerError /\
  extraction_events (trace (snd (handle_pdf_upload E uploaded_file st))) =
    extraction_events (trace st) /\
  (fst (broadcast_status_update E FileReceived st) = inr tt ->
   statuses (trace (snd (handle_pdf_upload E uploaded_file st))) =
     statuses (trace st) ++
     [FileReceived;
      ErrorProcessingFile (str_exn E (HTTPException 400 "Only PDF files are allowed"))]).
Proof.
  intros Hname Hpdf.
  remember (handle_pdf_upload E uploaded_file st) as run eqn:Hrun.
  unfold handle_pdf_upload in Hrun. unfold bind at 1 in Hrun.
  pose proof (broadcast_extraction_events E FileReceived st) as Hx1.
  destruct (broadcast_after E FileReceived st) as (_ & Hs1 & _).
  destruct (broadcast_result E FileReceived st) as [Hr1|[what Hr1]];
    destruct (broadcast_status_update E FileReceived st) as [r1 st1];
    cbn [fst snd] in *; subst r1.
  2:{ subst run. cbn [fst snd http_status]. split; [eauto|]. split; [reflexivity|].
      split; [reflexivity|]. split; [assumption|]. discriminate. }
  cbv [try_except bind lift raise ret] in Hrun. rewrite Hname, Hpdf in Hrun.
  cbn [negb] in Hrun.
  set (s := ErrorProcessingFile (str_exn E (HTTPException 400 "Only PDF files are allowed")))
    in *.
  pose proof (broadcast_extraction_events E s st1) as Hx2.
  destruct (broadcast_after E s st1) as (_ & Hs2 & _).
  destruct (broadcast_result E s st1) as [Hr2|[what Hr2]];
    destruct (broadcast_status_update E s st1) as [r2 st2];
    cbn [fst snd] in *; subst r2; subst run; cbn [fst snd http_status].
  - split; [eauto|]. split; [reflexivity|]. split; [reflexivity|].
    split; [congruence|]. intros _. rewrite Hs2, Hs1, <- app_assoc. reflexivity.
  - split; [eauto|]. split; [reflexivity|]. split; [reflexivity|].
    split; [congruence|]. intros _. rewrite Hs2, Hs1, <- app_assoc. reflexivity.
Qed.

Lemma non_pdf_upload_answers_500_witness :
  fst (handle_pdf_upload one_page_env text_upload two_subscribers) =
    inl (HTTPException 500 "Error processing file: 400: Only PDF files are allowed") /\
  http_status (fst (handle_pdf_upload one_page_env text_upload two_subscribers)) = 500 /\
  statuses (trace (snd (handle_pdf_upload one_page_env text_upload two_subscribers))) =
    [FileReceived; ErrorProcessingFile "400: Only PDF files are allowed"] /\
  extraction_events (trace (snd (handle_pdf_upload one_page_env text_upload two_subscribers))) =
    [].
Proof.
  destruct (non_pdf_upload_answers_500 one_page_env text_upload "report.txt" two_subscribers
              eq_refl eq_refl) as (_ & Hstatus & _ & Hx & Hs).
  split; [vm_compute; reflexivity|]. split; [exact Hstatus|].
  split; [exact (Hs eq_refl)|exact Hx].
Defined.

(** ** Delivery failures in a broadcast *)

(** C5 (amended). A broadcast sends the event to the registered subscribers
    one after another in the iteration order of the set.  When no send
    raises, every subscriber is delivered the event and the broadcast
    returns.  When a send raises, the failure is not isolated: the exception
    of the first failing send propagates out of the broadcast, and exactly
    the subscribers before it in iteration order have been delivered the
    event; those after it are not sent it. *)
Theorem broadcast_stops_at_first_failure E s st :
  fst (broadcast_status_update E s st) =
    match first_failure E (render s) (set_iter E (active_connections st)) with
    | None => inr tt
    | Some what => inl (External what)
    end /\
  delivered_to (render s) (trace (snd (broadcast_status_update E s st))) =
    delivered_to (render s) (trace st) ++
    delivered_prefix E (render s) (set_iter E (active_connections st)) /\
  (first_failure E (render s) (set_iter E (active_connections st)) = None ->
   delivered_prefix E (render s) (set_iter E (active_connections st)) =
   set_iter E (active_connections st) /\
   forall c, In c (set_iter E (active_connections st)) ->
             In c (delivered_to (render s) (trace (snd (broadcast_status_update E s st))))) /\
  (iterates_members E ->
   first_failure E (render s) (set_iter E (active_connections st)) = None ->
   forall c, c ∈ active_connections st ->
             In c (delivered_to (render s) (trace (snd (broadcast_status_update E s st))))) /\
  (forall l1 c l2 what,
      set_iter E (active_connections st) = l1 ++ c :: l2 ->
      Forall (fun c' => send_json E c' (render s) = None) l1 ->
      send_json E c (render s) = Some what ->
      fst (broadcast_status_update E s st) = inl (External what) /\
      delivered_prefix E (render s) (set_iter E (active_connections st)) = l1).
Proof.
  assert (Hfst : fst (broadcast_status_update E s st) =
                 match first_failure E (render s) (set_iter E (active_connections st)) with
                 | None => inr tt
                 | Some what => inl (External what)
                 end).
  { unfold broadcast_status_update, bind, get_state. simpl. apply send_each_first_failure. }
  split; [exact Hfst|].
  assert (Hto : delivered_to (render s) (trace (snd (broadcast_status_update E s st))) =
                delivered_to (render s) (trace st) ++
                delivered_prefix E (render s) (set_iter E (active_connections st))).
  { unfold broadcast_status_update, bind, get_state. simpl.
    rewrite send_each_trace. simpl.
    rewrite !delivered_to_app. simpl. now rewrite delivered_send_events, app_nil_r. }
  split; [exact Hto|]. split.
  { intros Hnone. split; [now apply delivered_prefix_all|].
    intros c Hc. rewrite Hto, (delivered_prefix_all _ _ _ Hnone).
    apply in_or_app. now right. }
  split.
  { intros Hiter Hnone c Hc. rewrite Hto, (delivered_prefix_all _ _ _ Hnone).
    apply in_or_app. right. apply list_elem_of_In.
    rewrite (Hiter (active_connections st)). now apply elem_of_elements. }
  intros l1 c l2 what Hiter Hl1 Hc. rewrite Hfst, Hiter.
  destruct (delivered_prefix_split E (render s) l1 c l2 what Hl1 Hc) as [-> ->]. auto.
Qed.

(** C5 (counterexample). With two registered subscribers, the send to
    subscriber 2 raising and the send to subscriber 1 succeeding, the
    broadcast does not isolate the failure: the exception propagates out of
    it, and subscriber 1, after subscriber 2 in iteration order, is never
    sent the event. *)
Lemma broadcast_failure_not_isolated :
  size (active_connections two_subscribers) = 2 /\
  send_json closed_2_env 2 (render Finalizing) = Some "WebSocketDisconnect" /\
  send_json closed_2_env 1 (render Finalizing) = None /\
  ~ isolates_failures closed_2_env Finalizing two_subscribers /\
  fst (broadcast_status_update closed_2_env Finalizing two_subscribers) =
    inl (External "WebSocketDisconnect") /\
  delivered_to (render Finalizing)
    (trace (snd (broadcast_status_update closed_2_env Finalizing two_subscribers))) = [].
Proof.
  split; [vm_compute; reflexivity|]. split; [reflexivity|]. split; [reflexivity|].
  split.
  - intros [Hret _]. vm_compute in Hret. discriminate Hret.
  - vm_compute. split; reflexivity.
Qed.

(** ** The subscriber set *)

(** C8 (amended). For every subscriber [s] and every state of the set,
    registering [s] adds it (a no-op when [s] is already a member);
    unregistering [s] removes it and raises nothing when [s] is a member; when
    [s] is absent, unregistering raises [KeyError] and leaves the set
    unchanged. *)
Theorem subscriber_set_operations (s : conn) (st : state) :
  active_connections_add s st =
    (inr tt, with_connections (fun connections => {[s]} ∪ connections) st) /\
  (s ∈ active_connections st ->
   active_connections (snd (active_connections_add s st)) = active_connections st) /\
  (s ∈ active_connections st ->
   active_connections_remove s st =
     (inr tt, with_connections (fun connections => connections ∖ {[s]}) st)) /\
  (s ∉ active_connections st ->
   active_connections_remove s st = (inl (KeyError (PyStr.of_nat s)), st)).
Proof.
  split; [reflexivity|]. split.
  { intros Hin. cbn [active_connections_add modify snd with_connections active_connections].
    unfold PySet.add. apply leibniz_equiv. intros x. rewrite elem_of_union, elem_of_singleton.
    split; [intros [->|Hx]; assumption | auto]. }
  split.
  - intros Hin. unfold active_connections_remove, PySet.remove. run_step.
    destruct (decide (s ∈ active_connections st)); [reflexivity|contradiction].
  - intros Hout. unfold active_connections_remove, PySet.remove. run_step.
    destruct (decide (s ∈ active_connections st)); [contradiction|reflexivity].
Qed.

(** C8 (counterexample). Unregistering a subscriber that is absent from the
    empty set raises [KeyError]. *)
Lemma unregister_absent_raises :
  (1 ∉ active_connections idle) /\
  fst (active_connections_remove 1 idle) = inl (KeyError "1").
Proof.
  split; [|reflexivity]. apply not_elem_of_empty.
Qed.

(** * Further properties of the code *)

(** ** The subscriber set during a request *)

Lemma keeps_pure {A} (m : M A) :
  (forall st, active_connections (snd (m st)) = active_connections st) -> keeps_connections m.
Proof. auto. Qed.

Lemma keeps_bind {A B} (m : M A) (k : A -> M B) :
  keeps_connections m -> (forall x, keeps_connections (k x)) -> keeps_connections (bind m k).
Proof.
  intros Hm Hk st. unfold bind. specialize (Hm st).
  destruct (m st) as [[e|x] st1]; cbn [snd] in *; [assumption|].
  now rewrite Hk.
Qed.

Lemma keeps_try_except {A} (body : M A) handler :
  keeps_connections body -> (forall e, keeps_connections (handler e)) ->
  keeps_connections (try_except body handler).
Proof.
  intros Hm Hk st. unfold try_except. specialize (Hm st).
  destruct (body st) as [[e|x] st1]; cbn [snd] in *; [|assumption].
  now rewrite Hk.
Qed.

Lemma keeps_lift {A} (r : result A) : keeps_connections (lift r).
Proof. intros st. now destruct r. Qed.

Lemma keeps_log ev : keeps_connections (log ev).
Proof. intros st. reflexivity. Qed.

Lemma keeps_broadcast E s : keeps_connections (broadcast_status_update E s).
Proof. intros st. now destruct (broadcast_after E s st) as (Hc & _). Qed.

Lemma keeps_extract_pages E n : forall pages i acc,
  keeps_connections (extract_pages E n i pages acc).
Proof.
  induction pages as [|page pages IH]; intros i acc; simpl.
  - intros st. reflexivity.
  - apply keeps_bind; [apply keeps_log|]. intros _.
    apply keeps_bind; [apply keeps_lift|]. intros page_text.
    apply keeps_bind; [apply keeps_broadcast|]. intros _. apply IH.
Qed.

Lemma keeps_extract E pdf_bytes : keeps_connections (extract_text_from_pdf E pdf_bytes).
Proof.
  unfold extract_text_from_pdf.
  apply keeps_try_except; [|intros e st; reflexivity].
  apply keeps_bind; [apply keeps_log|]. intros _.
  apply keeps_bind; [apply keeps_lift|]. intros pages. apply keeps_extract_pages.
Qed.

Lemma keeps_post_request E i req : keeps_connections (post_request E i req).
Proof.
  unfold post_request. apply keeps_bind; [apply keeps_log|]. intros _.
  destruct (http_post E req) as [what|api_response].
  - apply keeps_bind; [apply keeps_log|]. intros _ st. reflexivity.
  - apply keeps_bind; [apply keeps_log|]. intros _.
    apply keeps_bind; [apply keeps_lift|]. intros _.
    apply keeps_bind; [apply keeps_lift|]. intros result_json.
    apply keeps_bind; [apply keeps_broadcast|]. intros _ st. reflexivity.
Qed.

Lemma keeps_process_chunk E total i chunk : keeps_connections (process_chunk E total i chunk).
Proof.
  unfold process_chunk. apply keeps_bind; [apply keeps_broadcast|]. intros _.
  apply keeps_try_except; [|intros e; apply keeps_broadcast].
  apply keeps_bind; [apply keeps_broadcast|]. intros _.
  apply keeps_bind; [apply keeps_post_request|]. intros result_json.
  apply keeps_bind; [apply keeps_lift|]. intros content.
  apply keeps_bind; [apply keeps_lift|]. intros parsed_chunk.
  apply keeps_bind; [intros st; reflexivity|]. intros _. apply keeps_broadcast.
Qed.

Lemma keeps_for_enumerate {A} (body : nat -> A -> M unit) :
  (forall i x, keeps_connections (body i x)) ->
  forall items i, keeps_connections (for_enumerate body i items).
Proof.
  intros Hbody. induction items as [|x items IH]; intros i; simpl.
  - intros st. reflexivity.
  - apply keeps_bind; [apply Hbody|]. intros _. apply IH.
Qed.

Lemma keeps_analyze E text : keeps_connections (analyze_pdf_content E text).
Proof.
  unfold analyze_pdf_content. apply keeps_bind; [apply keeps_broadcast|]. intros _.
  apply keeps_bind; [intros st; reflexivity|]. intros _.
  apply keeps_bind; [apply keeps_for_enumerate; intros; apply keeps_process_chunk|].
  intros _. apply keeps_bind; [intros st; reflexivity|]. intros st'.
  apply keeps_bind; [apply keeps_lift|]. intros agg.
  apply keeps_bind; [apply keeps_broadcast|]. intros _ st. reflexivity.
Qed.

(** X1. No run of the upload endpoint, and no broadcast, changes the
    subscriber set: nothing is registered or unregistered, and a subscriber
    whose send raised stays registered. *)
Theorem upload_keeps_subscribers E uploaded_file st :
  active_connections (snd (handle_pdf_upload E uploaded_file st)) = active_connections st /\
  (forall s, active_connections (snd (broadcast_status_update E s st)) =
             active_connections st).
Proof.
  split; [|intros s; apply keeps_broadcast].
  revert st. change (keeps_connections (handle_pdf_upload E uploaded_file)).
  unfold handle_pdf_upload. apply keeps_bind; [apply keeps_broadcast|]. intros _.
  apply keeps_try_except.
  - apply keeps_bind; [apply keeps_lift|]. intros name.
    destruct (negb (PyStr.endswith name ".pdf")); [intros st; reflexivity|].
    apply keeps_bind; [apply keeps_log|]. intros _.
    apply keeps_bind; [apply keeps_broadcast|]. intros _.
    apply keeps_bind; [apply keeps_extract|]. intros text.
    apply keeps_bind; [apply keeps_broadcast|]. intros _.
    apply keeps_bind; [apply keeps_analyze|]. intros agg.
    apply keeps_bind; [apply keeps_broadcast|]. intros _ st. reflexivity.
  - intros e. apply keeps_bind; [apply keeps_broadcast|]. intros _ st. reflexivity.
Qed.

Lemma remove_member websocket st :
  websocket ∈ active_connections st ->
  active_connections_remove websocket st =
  (inr tt, with_connections (fun connections => connections ∖ {[websocket]}) st).
Proof.
  intros Hin. unfold active_connections_remove, PySet.remove. run_step.
  destruct (decide (websocket ∈ active_connections st)); [reflexivity|contradiction].
Qed.

(** X2. A websocket handler always unregisters its own websocket.  When the
    websocket is still registered at the moment the receive loop ends, the
    handler ends by raising (the disconnect, or what was raised while it
    waited), the [finally] clause removes the websocket and nothing else
    from the set, and the websocket is no longer a subscriber. *)
Theorem websocket_handler_unregisters (websocket : conn) meanwhile disconnect st :
  websocket ∈ active_connections (snd (meanwhile (snd (active_connections_add websocket st)))) ->
  (fst (websocket_handler websocket meanwhile disconnect st) = inl (External disconnect) \/
   exists error,
     fst (meanwhile (snd (active_connections_add websocket st))) = inl error /\
     fst (websocket_handler websocket meanwhile disconnect st) = inl error) /\
  active_connections (snd (websocket_handler websocket meanwhile disconnect st)) =
    active_connections (snd (meanwhile (snd (active_connections_add websocket st)))) ∖
    {[websocket]} /\
  websocket ∉ active_connections (snd (websocket_handler websocket meanwhile disconnect st)).
Proof.
  intros Hin.
  remember (websocket_handler websocket meanwhile disconnect st) as run eqn:Hrun.
  unfold websocket_handler, try_finally in Hrun. unfold bind at 1 in Hrun.
  cbn [active_connections_add modify fst snd] in *.
  set (st0 := with_connections _ st) in *.
  unfold bind at 1 in Hrun.
  destruct (meanwhile st0) as [[e|[]] st1] eqn:Hmean; cbn [fst snd raise] in *;
    rewrite (remove_member websocket st1 Hin) in Hrun; subst run; cbn [fst snd].
  - split; [right; eauto|]. split; [reflexivity|].
    cbn [with_connections active_connections].
    intros H. apply elem_of_difference in H as [_ H]. apply H. now apply elem_of_singleton.
  - split; [now left|]. split; [reflexivity|].
    cbn [with_connections active_connections].
    intros H. apply elem_of_difference in H as [_ H]. apply H. now apply elem_of_singleton.
Qed.

Lemma websocket_handler_unregisters_witness :
  fst (websocket_handler 3 (ret tt) "WebSocketDisconnect" two_subscribers) =
    inl (External "WebSocketDisconnect") /\
  active_connections (snd (websocket_handler 3 (ret tt) "WebSocketDisconnect" two_subscribers)) =
    active_connections two_subscribers.
Proof.
  destruct (websocket_handler_unregisters 3 (ret tt) "WebSocketDisconnect" two_subscribers)
    as (Hres & Hset & _).
  - cbn [active_connections_add modify ret fst snd with_connections active_connections].
    unfold PySet.add. apply elem_of_union_l. now apply elem_of_singleton.
  - split.
    + destruct Hres as [Hres|(error & Herr & _)]; [exact Hres|discriminate Herr].
    + rewrite Hset. vm_compute. reflexivity.
Defined.

Lemma broadcast_trace E s st :
  trace (snd (broadcast_status_update E s st)) =
  trace st ++ EvBroadcast s :: send_events E (render s) (set_iter E (active_connections st)).
Proof.
  unfold broadcast_status_update, bind, get_state. simpl.
  rewrite send_each_trace. simpl. now rewrite <- app_assoc.
Qed.

Lemma broadcast_first_failure E s st :
  fst (broadcast_status_update E s st) =
  match first_failure E (render s) (set_iter E (active_connections st)) with
  | None => inr tt
  | Some what => inl (External what)
  end.
Proof.
  unfold broadcast_status_update, bind, get_state. simpl. apply send_each_first_failure.
Qed.

Lemma first_failure_member E text c what : forall connections,
  In c connections -> send_json E c text = Some what ->
  exists what', first_failure E text connections = Some what'.
Proof.
  induction connections as [|c' cs IH]; intros Hin Hc; [destruct Hin|].
  simpl. destruct (send_json E c' text) as [w|] eqn:Hc'; [eauto|].
  destruct Hin as [->|Hin]; [congruence|]. now apply IH.
Qed.

Lemma send_events_all E text : forall connections,
  first_failure E text connections = None ->
  send_events E text connections = map (fun c => EvSend c text true) connections.
Proof.
  induction connections as [|c cs IH]; simpl; [reflexivity|].
  destruct (send_json E c text); [discriminate|]. intros H. now rewrite IH.
Qed.

Lemma received_by_app c t1 t2 : received_by c (t1 ++ t2) = received_by c t1 ++ received_by c t2.
Proof. apply omap_app. Qed.

Lemma received_by_send c c' text t :
  received_by c (EvSend c' text true :: t) =
  (if c' =? c then [text] else []) ++ received_by c t.
Proof. unfold received_by. simpl. now destruct (c' =? c). Qed.

Lemma received_by_broadcast c s t : received_by c (EvBroadcast s :: t) = received_by c t.
Proof. reflexivity. Qed.

Lemma received_by_sends c text : forall connections,
  NoDup connections ->
  received_by c (map (fun c' => EvSend c' text true) connections) =
  if decide (c ∈ connections) then [text] else [].
Proof.
  induction 1 as [|c' cs Hnotin Hnodup IH]; [reflexivity|].
  cbn [map]. rewrite received_by_send, IH.
  destruct (Nat.eqb_spec c' c) as [->|Hne]; cbn [app].
  - destruct (decide (c ∈ cs)); [contradiction|].
    destruct (decide (c ∈ c :: cs)) as [|Hn]; [reflexivity|].
    exfalso. apply Hn. now left.
  - destruct (decide (c ∈ cs)) as [Hin|Hnin];
      destruct (decide (c ∈ c' :: cs)) as [Hin'|Hnin']; try reflexivity.
    + exfalso. apply Hnin'. now right.
    + exfalso. apply elem_of_cons in Hin' as [->|Hin']; [now apply Hne|contradiction].
Qed.

Lemma first_failure_ok E text : deliveries_ok E ->
  forall connections, first_failure E text connections = None.
Proof.
  intros Hok. induction connections as [|c cs IH]; simpl; [reflexivity|]. now rewrite Hok.
Qed.

Lemma received_after_broadcast E s st c :
  iterates_members E ->
  first_failure E (render s) (set_iter E (active_connections st)) = None ->
  received_by c (trace (snd (broadcast_status_update E s st))) =
    received_by c (trace st) ++
    (if decide (c ∈ active_connections st) then [render s] else []).
Proof.
  intros Hiter Hnone.
  rewrite broadcast_trace, received_by_app, (send_events_all _ _ _ Hnone).
  rewrite received_by_broadcast, received_by_sends.
  - f_equal.
    destruct (decide (c ∈ set_iter E (active_connections st))) as [Hin|Hnin];
      destruct (decide (c ∈ active_connections st)) as [Hin'|Hnin']; try reflexivity.
    + exfalso. apply Hnin'. rewrite (Hiter _) in Hin. now apply elem_of_elements in Hin.
    + exfalso. apply Hnin. rewrite (Hiter _). now apply elem_of_elements.
  - rewrite (Hiter _). apply NoDup_elements.
Qed.

(** X3. When the iteration of the set yields each member once and no send
    raises, a broadcast returns and delivers its text exactly once to every
    registered subscriber and to nobody else; two broadcasts in a row reach
    a subscriber in the order they were made. *)
Theorem broadcast_delivers_once E s st c :
  iterates_members E ->
  (first_failure E (render s) (set_iter E (active_connections st)) = None ->
   fst (broadcast_status_update E s st) = inr tt /\
   received_by c (trace (snd (broadcast_status_update E s st))) =
     received_by c (trace st) ++
     (if decide (c ∈ active_connections st) then [render s] else [])) /\
  (deliveries_ok E -> c ∈ active_connections st ->
   forall s',
     received_by c
       (trace (snd (bind (broadcast_status_update E s)
                         (fun _ => broadcast_status_update E s') st))) =
     received_by c (trace st) ++ [render s; render s']).
Proof.
  intros Hiter. split.
  { intros Hnone. split; [now rewrite broadcast_first_failure, Hnone|].
    now apply received_after_broadcast. }
  intros Hok Hin s'. unfold bind.
  pose proof (broadcast_ok E s st Hok) as Hret.
  pose proof (keeps_broadcast E s st) as Hkeep.
  pose proof (received_after_broadcast E s st c Hiter (first_failure_ok E _ Hok _)) as Hrec.
  destruct (broadcast_status_update E s st) as [r st1]; cbn [fst snd] in *; subst r.
  rewrite (received_after_broadcast E s' st1 c Hiter (first_failure_ok E _ Hok _)).
  rewrite Hrec, Hkeep.
  destruct (decide (c ∈ active_connections st)); [|contradiction].
  now rewrite <- app_assoc.
Qed.

Lemma broadcast_delivers_once_witness :
  received_by 1 (trace (snd (broadcast_status_update mixed_env Finalizing two_subscribers))) =
    ["Finalizing analysis results..."] /\
  received_by 3 (trace (snd (broadcast_status_update mixed_env Finalizing two_subscribers))) =
    [].
Proof.
  assert (Hiter : iterates_members mixed_env) by (intros S; reflexivity).
  split.
  - refine (proj2 (proj1 (broadcast_delivers_once mixed_env Finalizing two_subscribers 1 Hiter) _)).
    vm_compute. reflexivity.
  - refine (proj2 (proj1 (broadcast_delivers_once mixed_env Finalizing two_subscribers 3 Hiter) _)).
    vm_compute. reflexivity.
Defined.

(** X4. The first broadcast of the endpoint is outside its [try]: when the
    send of the "received" status to some registered subscriber raises,
    every upload fails with the exception of a send (answered 500), after
    that one status and before the file is read, extracted or analysed. *)
Theorem dead_subscriber_fails_every_upload E uploaded_file st c what :
  iterates_members E ->
  c ∈ active_connections st ->
  send_json E c (render FileReceived) = Some what ->
  (exists what', fst (handle_pdf_upload E uploaded_file st) = inl (External what')) /\
  classify (http_status (fst (handle_pdf_upload E uploaded_file st))) = ServerError /\
  statuses (trace (snd (handle_pdf_upload E uploaded_file st))) =
    statuses (trace st) ++ [FileReceived] /\
  extraction_events (trace (snd (handle_pdf_upload E uploaded_file st))) =
    extraction_events (trace st) /\
  model_events (trace (snd (handle_pdf_upload E uploaded_file st))) = model_events (trace st).
Proof.
  intros Hiter Hin Hsend.
  assert (Hfail : exists what',
             first_failure E (render FileReceived) (set_iter E (active_connections st)) =
             Some what').
  { apply (first_failure_member E _ c what); [|assumption].
    apply list_elem_of_In. rewrite (Hiter _). now apply elem_of_elements. }
  destruct Hfail as [what' Hfail].
  pose proof (broadcast_first_failure E FileReceived st) as Hret. rewrite Hfail in Hret.
  destruct (broadcast_after E FileReceived st) as (_ & Hs & Hm & _).
  pose proof (broadcast_extraction_events E FileReceived st) as Hx.
  assert (Hrun : handle_pdf_upload E uploaded_file st =
                 (inl (External what'), snd (broadcast_status_update E FileReceived st))).
  { unfold handle_pdf_upload. unfold bind at 1.
    destruct (broadcast_status_update E FileReceived st) as [r st1]; cbn [fst snd] in *.
    now subst r. }
  rewrite Hrun. cbn [fst snd]. rewrite app_nil_r in Hm.
  split; [eauto|]. auto.
Qed.

Lemma dead_subscriber_fails_every_upload_witness :
  fst (handle_pdf_upload closed_2_env pdf_upload two_subscribers) =
    inl (External "WebSocketDisconnect") /\
  extraction_events (trace (snd (handle_pdf_upload closed_2_env pdf_upload two_subscribers))) =
    [].
Proof.
  destruct (dead_subscriber_fails_every_upload closed_2_env pdf_upload two_subscribers 2
              "WebSocketDisconnect") as ([what' Hres] & _ & _ & Hx & _).
  - intros S. reflexivity.
  - unfold two_subscribers. cbn [active_connections].
    apply elem_of_union_r. now apply elem_of_singleton.
  - reflexivity.
  - split; [|exact Hx]. rewrite Hres. vm_compute in Hres. symmetry. exact Hres.
Defined.

Lemma first_failure_sender E text what : forall connections,
  first_failure E text connections = Some what ->
  exists c, In c connections /\ send_json E c text = Some what.
Proof.
  induction connections as [|c cs IH]; simpl; [discriminate|].
  destruct (send_json E c text) as [w|] eqn:Hc.
  - intros [= ->]. exists c. auto.
  - intros H. destruct (IH H) as (c' & Hin & Hc'). exists c'. auto.
Qed.

(** A broadcast returns, or raises what the send to a subscriber raised. *)
Lemma broadcast_outcome E s st :
  fst (broadcast_status_update E s st) = inr tt \/
  exists c what,
    send_json E c (render s) = Some what /\
    fst (broadcast_status_update E s st) = inl (External what).
Proof.
  rewrite broadcast_first_failure.
  destruct (first_failure E (render s) (set_iter E (active_connections st))) as [what|] eqn:Hf;
    [right|now left].
  apply first_failure_sender in Hf as (c & _ & Hc). eauto.
Qed.

Lemma bind_returned {A B} (m : M A) (k : A -> M B) st b st2 :
  bind m k st = (inr b, st2) ->
  exists x st1, m st = (inr x, st1) /\ k x st1 = (inr b, st2).
Proof.
  unfold bind. destruct (m st) as [[e|x] st1]; [discriminate|]. eauto.
Qed.

Lemma try_except_cases {A} (body : M A) handler st :
  (exists a st2, body st = (inr a, st2) /\ try_except body handler st = (inr a, st2)) \/
  (exists e st2, body st = (inl e, st2) /\ try_except body handler st = handler e st2).
Proof.
  unfold try_except. destruct (body st) as [[e|a] st2]; [right|left]; eauto.
Qed.

(** The [except] clause of the endpoint: the error status is broadcast and
    the endpoint raises. *)
Lemma upload_handler_run E error st :
  let run := bind (broadcast_status_update E (ErrorProcessingFile (str_exn E error)))
               (fun _ => @raise aggregated
                  (HTTPException 500 ("Error processing file: " ++ str_exn E error)%string)) st
  in
  statuses (trace (snd run)) = statuses (trace st) ++ [ErrorProcessingFile (str_exn E error)] /\
  (fst run = inl (HTTPException 500 ("Error processing file: " ++ str_exn E error)%string) \/
   exists c text what, send_json E c text = Some what /\ fst run = inl (External what)).
Proof.
  cbv zeta. unfold bind.
  destruct (broadcast_after E (ErrorProcessingFile (str_exn E error)) st) as (_ & Hs & _).
  destruct (broadcast_outcome E (ErrorProcessingFile (str_exn E error)) st)
    as [Hret|(c & what & Hc & Hret)];
    destruct (broadcast_status_update E (ErrorProcessingFile (str_exn E error)) st)
      as [r st1]; cbn [fst snd] in *; subst r; cbn [fst snd raise].
  - auto.
  - split; [assumption|]. right. eauto.
Qed.

(** The three ways a request can end. *)
Lemma upload_outcomes E uploaded_file st :
  (exists analysis_results st1,
     fst (handle_pdf_upload E uploaded_file st) = inr analysis_results /\
     statuses (trace (snd (handle_pdf_upload E uploaded_file st))) =
       statuses (trace st1) ++ [AnalysisCompleted]) \/
  (exists error st1,
     statuses (trace (snd (handle_pdf_upload E uploaded_file st))) =
       statuses (trace st1) ++ [ErrorProcessingFile (str_exn E error)] /\
     (fst (handle_pdf_upload E uploaded_file st) =
        inl (HTTPException 500 ("Error processing file: " ++ str_exn E error)%string) \/
      exists c text what,
        send_json E c text = Some what /\
        fst (handle_pdf_upload E uploaded_file st) = inl (External what))) \/
  (exists c what,
     send_json E c (render FileReceived) = Some what /\
     fst (broadcast_status_update E FileReceived st) = inl (External what) /\
     fst (handle_pdf_upload E uploaded_file st) = inl (External what)).
Proof.
  remember (handle_pdf_upload E uploaded_file st) as run eqn:Hrun.
  unfold handle_pdf_upload in Hrun. unfold bind at 1 in Hrun.
  destruct (broadcast_outcome E FileReceived st) as [Hret|(c & what & Hc & Hret)];
    destruct (broadcast_status_update E FileReceived st) as [r st1];
    cbn [fst snd] in *; subst r.
  2:{ right. right. exists c, what. subst run. auto. }
  match type of Hrun with
  | _ = try_except ?body ?handler st1 =>
      destruct (try_except_cases body handler st1)
        as [(a & st2 & Hbody & Htry)|(e & st2 & Hbody & Htry)];
      rewrite Htry in Hrun; clear Htry
  end.
  - left. subst run. cbn [fst snd]. exists a.
    apply bind_returned in Hbody as (name & st3 & _ & Hbody).
    destruct (negb (PyStr.endswith name ".pdf")); [discriminate Hbody|].
    apply bind_returned in Hbody as (_ & st4 & _ & Hbody).
    apply bind_returned in Hbody as (_ & st5 & _ & Hbody).
    apply bind_returned in Hbody as (text & st6 & _ & Hbody).
    apply bind_returned in Hbody as (_ & st7 & _ & Hbody).
    apply bind_returned in Hbody as (res & st8 & _ & Hbody).
    apply bind_returned in Hbody as ([] & st9 & Hlast & Hbody).
    injection Hbody as <- <-.
    destruct (broadcast_after E AnalysisCompleted st8) as (_ & Hs & _).
    rewrite Hlast in Hs. exists st8. auto.
  - right. left. exists e, st2. subst run. apply upload_handler_run.
Qed.

(** X5. The endpoint answers every request with 200 or 500 and never with
    a client error: the only [HTTPException] that leaves it is the 500 of
    its [except] clause, whose detail is "Error processing file: " followed
    by the text of the caught error. *)
Theorem upload_answers_200_or_500 E uploaded_file st :
  (http_status (fst (handle_pdf_upload E uploaded_file st)) = 200 \/
   http_status (fst (handle_pdf_upload E uploaded_file st)) = 500) /\
  classify (http_status (fst (handle_pdf_upload E uploaded_file st))) <> ClientError /\
  (forall status_code detail,
      fst (handle_pdf_upload E uploaded_file st) = inl (HTTPException status_code detail) ->
      status_code = 500 /\
      exists error, detail = ("Error processing file: " ++ str_exn E error)%string).
Proof.
  destruct (upload_outcomes E uploaded_file st)
    as [(a & st1 & Hres & _)
       |[(e & st1 & _ & [Hres|(c & text & what & _ & Hres)])
        |(c & what & _ & _ & Hres)]];
    rewrite Hres; cbn [http_status].
  - split; [now left|]. split; [discriminate|]. discriminate.
  - split; [now right|]. split; [discriminate|].
    intros status_code detail [= <- <-]. eauto.
  - split; [now right|]. split; [discriminate|]. discriminate.
  - split; [now right|]. split; [discriminate|]. discriminate.
Qed.

(** X6. Once the "received" status is out, the last status a request
    broadcasts tells its outcome: "Analysis successfully completed." when
    the endpoint returns a result, and an "Error processing file: ..."
    status when it raises. *)
Theorem request_ends_with_terminal_status E uploaded_file st :
  fst (broadcast_status_update E FileReceived st) = inr tt ->
  match fst (handle_pdf_upload E uploaded_file st) with
  | inr _ =>
      last (statuses (trace (snd (handle_pdf_upload E uploaded_file st)))) =
      Some AnalysisCompleted
  | inl _ =>
      exists error,
        last (statuses (trace (snd (handle_pdf_upload E uploaded_file st)))) =
        Some (ErrorProcessingFile (str_exn E error))
  end.
Proof.
  intros Hfirst.
  destruct (upload_outcomes E uploaded_file st)
    as [(a & st1 & Hres & Hs)
       |[(e & st1 & Hs & [Hres|(c & text & what & _ & Hres)])
        |(c & what & _ & Hfail & _)]];
    try (rewrite Hres, Hs, last_snoc; eauto).
  congruence.
Qed.

Lemma request_ends_with_terminal_status_witness :
  last (statuses (trace (snd (handle_pdf_upload mixed_env pdf_upload two_subscribers)))) =
    Some AnalysisCompleted.
Proof.
  pose proof (request_ends_with_terminal_status mixed_env pdf_upload two_subscribers eq_refl)
    as H.
  assert (Hres : exists a, fst (handle_pdf_upload mixed_env pdf_upload two_subscribers) = inr a)
    by (vm_compute; eauto).
  destruct Hres as [a Hres]. rewrite Hres in H. exact H.
Defined.

(** ** Extraction page by page *)

Lemma extract_pages_stops E n : deliveries_ok E ->
  forall texts what rest i acc st,
    fst (extract_pages E n i (map inr texts ++ inl what :: rest) acc st) =
      inl (External what) /\
    extraction_events
      (trace (snd (extract_pages E n i (map inr texts ++ inl what :: rest) acc st))) =
      extraction_events (trace st) ++ map EvExtractText (seq i (S (length texts))) /\
    statuses (trace (snd (extract_pages E n i (map inr texts ++ inl what :: rest) acc st))) =
      statuses (trace st) ++ map (fun k => ExtractedPage k n) (seq (i + 1) (length texts)).
Proof.
  intros Hok. induction texts as [|t texts IH]; intros what rest i acc st.
  - cbn [map app extract_pages length seq]. run_step. cbn [fst snd with_trace trace].
    rewrite extraction_events_app, statuses_app. simpl. now rewrite app_nil_r.
  - cbn [map app extract_pages length]. run_step.
    set (st1 := with_trace _ st).
    pose proof (broadcast_ok E (ExtractedPage (i + 1) n) st1 Hok) as Hret.
    destruct (broadcast_after E (ExtractedPage (i + 1) n) st1) as (_ & Hs & _).
    pose proof (broadcast_extraction_events E (ExtractedPage (i + 1) n) st1) as Hx.
    destruct (broadcast_status_update E (ExtractedPage (i + 1) n) st1) as [r st2];
      cbn [fst snd] in *; subst r.
    destruct (IH what rest (S i) (acc ++ (t ++ PyStr.newline))%string st2) as (IH1 & IH2 & IH3).
    split; [exact IH1|]. rewrite IH2, IH3, Hx, Hs. subst st1. cbn [with_trace trace].
    rewrite extraction_events_app, statuses_app. simpl.
    rewrite !app_nil_r, <- !app_assoc. simpl.
    replace (S i + 1) with (S (i + 1)) by lia. auto.
Qed.

(** X7. The extraction re-raises the failure of the reader unchanged, having
    extracted no page.  When the deliveries succeed and a page cannot be
    extracted, it raises that page's failure, the pages up to and including
    that one have been attempted in order and no later one, and one
    progress status per extracted page has been broadcast, each naming the
    total number of pages. *)
Theorem extraction_stops_at_failing_page E pdf_bytes st :
  (forall what,
      pdf_reader E pdf_bytes = inl what ->
      extract_text_from_pdf E pdf_bytes st =
      (inl (External what), with_trace (fun t => t ++ [EvPdfReader]) st)) /\
  (deliveries_ok E ->
   forall page_texts what rest,
     pdf_reader E pdf_bytes = inr (map inr page_texts ++ inl what :: rest) ->
     fst (extract_text_from_pdf E pdf_bytes st) = inl (External what) /\
     extraction_events (trace (snd (extract_text_from_pdf E pdf_bytes st))) =
       extraction_events (trace st) ++
       EvPdfReader :: map EvExtractText (seq 0 (S (length page_texts))) /\
     statuses (trace (snd (extract_text_from_pdf E pdf_bytes st))) =
       statuses (trace st) ++
       map (fun k => ExtractedPage k (length page_texts + 1 + length rest))
           (seq 1 (length page_texts))).
Proof.
  split.
  - intros what Hreader. unfold extract_text_from_pdf. rewrite try_reraise.
    run_step. now rewrite Hreader.
  - intros Hok page_texts what rest Hreader.
    unfold extract_text_from_pdf. rewrite try_reraise. run_step. rewrite Hreader.
    set (st1 := with_trace _ st).
    destruct (extract_pages_stops E
                (length (map inr page_texts ++ @inl string string what :: rest))
                Hok page_texts what rest 0 "" st1) as (H1 & H2 & H3).
    split; [exact H1|]. rewrite H2, H3. subst st1. cbn [with_trace trace].
    rewrite extraction_events_app, statuses_app. simpl.
    rewrite !app_nil_r, <- !app_assoc. simpl.
    rewrite length_app, length_map. cbn [length].
    replace (length page_texts + S (length rest)) with (length page_texts + 1 + length rest)
      by lia.
    auto.
Qed.


Lemma extraction_stops_at_failing_page_witness :
  fst (extract_text_from_pdf bad_page_env [] idle) = inl (External "bad page") /\
  extraction_events (trace (snd (extract_text_from_pdf bad_page_env [] idle))) =
    [EvPdfReader; EvExtractText 0; EvExtractText 1].
Proof.
  destruct (proj2 (extraction_stops_at_failing_page bad_page_env [] idle)
              ltac:(intros c text; reflexivity) ["a"] "bad page" [inr "c"] eq_refl)
    as (H1 & H2 & _).
  split; [exact H1|exact H2].
Defined.

(** ** The requests of an upload *)

(** The model events of an upload that passes validation and extraction,
    when the deliveries succeed. *)
Lemma handle_run_events E uploaded_file name texts st : deliveries_ok E ->
  filename uploaded_file = Some name ->
  PyStr.endswith name ".pdf" = true ->
  pdf_reader E (file_bytes uploaded_file) = inr (map inr texts) ->
  model_events (trace (snd (handle_pdf_upload E uploaded_file st))) =
  model_events (trace st) ++ flat_map (call_events E) (requests E (pages_text texts)).
Proof.
  intros Hok Hname Hpdf Hreader. unfold handle_pdf_upload. run_step.
  destruct (broadcast_run E FileReceived st Hok) as (st1 & Hrun1 & _ & _ & Hm1 & _).
  rewrite Hrun1, Hname, Hpdf. cbn [negb].
  match goal with
  | |- context [broadcast_status_update E (FileSize ?n) ?s] =>
      destruct (broadcast_run E (FileSize n) s Hok) as (st2 & Hrun2 & _ & _ & Hm2 & _);
      rewrite Hrun2
  end.
  cbn [trace with_trace] in Hm2. rewrite model_events_app in Hm2. simpl in Hm2.
  pose proof (extract_returns E (file_bytes uploaded_file) st2 texts Hok Hreader) as Hext.
  destruct (quiet_extract E (file_bytes uploaded_file) st2) as (ss3 & _ & _ & Hm3 & _).
  destruct (extract_text_from_pdf E (file_bytes uploaded_file) st2) as [r st3];
    cbn [fst snd] in Hext, Hm3; subst r.
  destruct (broadcast_run E (ExtractedChars (String.length (pages_text texts))) st3 Hok)
    as (st4 & Hrun4 & _ & _ & Hm4 & _).
  rewrite Hrun4.
  destruct (analyze_run E (pages_text texts) st4 Hok)
    as (st5 & added & Hrun5 & _ & _ & Hm5 & _).
  rewrite Hrun5.
  assert (Hm : model_events (trace st5) =
               model_events (trace st) ++
               flat_map (call_events E) (requests E (pages_text texts))).
  { rewrite Hm5, Hm4, Hm3, Hm2, Hm1. now rewrite !app_nil_r. }
  destruct (aggregate _) as [e|agg].
  - match goal with
    | |- context [broadcast_status_update E ?s0 st5] =>
        destruct (broadcast_run E s0 st5 Hok) as (st6 & Hrun6 & _ & _ & Hm6 & _);
        rewrite Hrun6
    end.
    cbn [snd]. rewrite Hm6, Hm. now rewrite app_nil_r.
  - match goal with
    | |- context [broadcast_status_update E ?s0 st5] =>
        destruct (broadcast_run E s0 st5 Hok) as (st6 & Hrun6 & _ & _ & Hm6 & _);
        rewrite Hrun6
    end.
    cbn [snd]. rewrite Hm6, Hm. now rewrite app_nil_r.
Qed.

Lemma string_length_app (s t : string) :
  String.length (s ++ t)%string = String.length s + String.length t.
Proof.
  induction s as [|c s IH]; [reflexivity|].
  rewrite string_app_cons. simpl. now rewrite IH.
Qed.

Lemma length_pages_text texts :
  String.length (pages_text texts) = list_sum (map String.length texts) + length texts.
Proof.
  unfold pages_text.
  assert (H : forall acc, String.length (fold_left add_page texts acc) =
                          String.length acc + (list_sum (map String.length texts) + length texts)).
  { induction texts as [|t texts IH]; intros acc; simpl; [lia|].
    rewrite IH. unfold add_page. rewrite !string_length_app. simpl. lia. }
  rewrite H. reflexivity.
Qed.

Lemma requests_texts E text :
  map section_text (requests E text) = content_chunks text /\
  length (requests E text) = length (content_chunks text).
Proof.
  destruct (section_numbers E (length (content_chunks text)) (content_chunks text) 0)
    as [Hnum Htext].
  split; [exact Htext|]. unfold requests. rewrite <- Htext at 3. now rewrite length_map.
Qed.

(** X8. For an upload that passes validation and extraction, with the
    deliveries succeeding, the requests posted to the model are exactly the
    requests of the extracted text, in order; their texts concatenate to the
    whole extracted text; and their number is the ceiling of (the characters
    of the pages plus one newline per page) over 1500. *)
Theorem upload_sends_whole_text E uploaded_file name page_texts st :
  deliveries_ok E ->
  filename uploaded_file = Some name ->
  PyStr.endswith name ".pdf" = true ->
  pdf_reader E (file_bytes uploaded_file) = inr (map inr page_texts) ->
  posts (trace (snd (handle_pdf_upload E uploaded_file st))) =
    posts (trace st) ++ requests E (pages_text page_texts) /\
  String.concat "" (map section_text (requests E (pages_text page_texts))) =
    pages_text page_texts /\
  length (requests E (pages_text page_texts)) =
    ceil_div (list_sum (map String.length page_texts) + length page_texts) 1500.
Proof.
  intros Hok Hname Hpdf Hreader.
  destruct (requests_texts E (pages_text page_texts)) as [Htexts Hlen].
  split.
  { rewrite <- posts_model_events,
      (handle_run_events E uploaded_file name page_texts st Hok Hname Hpdf Hreader).
    rewrite posts_app, posts_model_events. now rewrite posts_call_events. }
  split.
  { rewrite Htexts. apply concat_chunk_text, chunk_size_pos. }
  rewrite Hlen. unfold content_chunks.
  rewrite (length_chunk_text CHUNK_SIZE chunk_size_pos), length_pages_text. reflexivity.
Qed.

Lemma upload_sends_whole_text_witness :
  map section_number
    (posts (trace (snd (handle_pdf_upload mixed_env pdf_upload two_subscribers)))) = [1; 2] /\
  length (requests mixed_env (pages_text [long_page])) = 2.
Proof.
  destruct (upload_sends_whole_text mixed_env pdf_upload "report.pdf" [long_page]
              two_subscribers) as (Hposts & _ & Hlen);
    try reflexivity.
  - intros c text. reflexivity.
  - split.
    + rewrite Hposts. vm_compute. reflexivity.
    + rewrite Hlen. vm_compute. reflexivity.
Defined.

Lemma requests_from_shape E total : forall chunks i,
  Forall (fun req => url req = MODEL_API_URL /\
                     bearer req = ("Bearer " ++ MODEL_API_KEY E)%string /\
                     section_count req = total /\
                     i + 1 <= section_number req <= i + length chunks)
         (requests_from E total i chunks).
Proof.
  induction chunks as [|chunk chunks IH]; intros i; [constructor|].
  cbn [requests_from length]. constructor.
  - cbn. repeat split; lia.
  - eapply Forall_impl; [apply (IH (S i))|].
    intros req (Hu & Hb & Hc & Hn). repeat split; try assumption; lia.
Qed.

(** The requests posted in any run of the analysis: a subsequence of the
    requests of its chunks, and all of them when the deliveries succeed. *)
Lemma analyze_posts E text st :
  exists called,
    posts (trace (snd (analyze_pdf_content E text st))) = posts (trace st) ++ called /\
    sublist called (requests E text) /\
    (deliveries_ok E -> called = requests E text).
Proof.
  destruct (analyze_emits E text st)
    as (added & called & announced & _ & Hm & Hsub & _).
  exists called. split.
  { rewrite <- posts_model_events, Hm, posts_app, posts_model_events.
    now rewrite posts_call_events. }
  split; [exact Hsub|].
  intros Hok.
  destruct (analyze_run E text st Hok) as (st' & added' & Hrun & _ & _ & Hm' & _).
  apply run_eq in Hrun as [_ Hst']. rewrite Hst', Hm' in Hm.
  apply app_inv_head in Hm. apply (f_equal posts) in Hm.
  rewrite !posts_call_events in Hm. now symmetry.
Qed.

Lemma Forall_of_sublist {A} (P : A -> Prop) (l1 l2 : list A) :
  sublist l1 l2 -> Forall P l2 -> Forall P l1.
Proof.
  induction 1 as [|x l1 l2 _ IH|x l1 l2 _ IH]; intros Hall.
  - constructor.
  - inversion Hall; subst. constructor; auto.
  - inversion Hall; subst. auto.
Qed.

Lemma sorted_of_sublist (l1 l2 : list nat) :
  sublist l1 l2 -> StronglySorted lt l2 -> StronglySorted lt l1.
Proof.
  induction 1 as [|x l1 l2 Hsub IH|x l1 l2 _ IH]; intros Hs.
  - constructor.
  - inversion Hs; subst. constructor; [auto|].
    eapply Forall_of_sublist; eassumption.
  - inversion Hs; subst. auto.
Qed.

(** The request of a chunk: where it goes, how it is numbered, and the
    window of the text it carries. *)
Lemma requests_shape E text :
  Forall (fun req =>
            url req = MODEL_API_URL /\
            bearer req = ("Bearer " ++ MODEL_API_KEY E)%string /\
            section_count req = ceil_div (String.length text) CHUNK_SIZE /\
            1 <= section_number req <= section_count req /\
            1 <= String.length (section_text req) <= CHUNK_SIZE /\
            section_text req =
              PyStr.slice text ((section_number req - 1) * CHUNK_SIZE)
                          (section_number req * CHUNK_SIZE))
         (requests E text).
Proof.
  destruct (requests_texts E text) as [Htexts Hlen].
  destruct (section_numbers E (length (content_chunks text)) (content_chunks text) 0)
    as [Hnum _].
  fold (requests E text) in Hnum.
  assert (Hcount : length (content_chunks text) = ceil_div (String.length text) CHUNK_SIZE)
    by apply (length_chunk_text CHUNK_SIZE chunk_size_pos).
  apply List.Forall_forall. intros req Hin.
  pose proof (requests_from_shape E (length (content_chunks text)) (content_chunks text) 0)
    as Hshape.
  rewrite List.Forall_forall in Hshape.
  destruct (Hshape req Hin) as (Hu & Hb & Hc & Hn).
  apply In_nth_error in Hin as [k Hk].
  assert (Hnumk : nth_error (map section_number (requests E text)) k = Some (section_number req))
    by (rewrite nth_error_map, Hk; reflexivity).
  assert (Htextk : nth_error (map section_text (requests E text)) k = Some (section_text req))
    by (rewrite nth_error_map, Hk; reflexivity).
  rewrite Htexts in Htextk.
  assert (Hlt : k < length (content_chunks text)).
  { apply nth_error_Some. congruence. }
  rewrite Hnum, nth_error_seq in Hnumk.
  destruct (Nat.ltb_spec k (length (content_chunks text))); [|lia].
  injection Hnumk as Hnumk.
  pose proof (chunk_nonempty CHUNK_SIZE chunk_size_pos text (section_text req)
                (nth_error_In _ _ Htextk)) as Hne.
  apply (nth_chunk_text CHUNK_SIZE chunk_size_pos) in Htextk as [_ Hwin].
  rewrite Hc, <- Hcount.
  split; [assumption|]. split; [assumption|]. split; [reflexivity|].
  split; [lia|]. split.
  - split.
    + destruct (section_text req); [congruence|simpl; lia].
    + rewrite Hwin, length_substring. lia.
  - rewrite Hwin, <- Hnumk. unfold PyStr.slice. f_equal; lia.
Qed.

Lemma requests_one E text :
  1 <= String.length text <= CHUNK_SIZE -> requests E text = [request_for E 0 1 text].
Proof.
  intros [Hpos Hle].
  assert (Hchunks : content_chunks text = [text]).
  { unfold content_chunks. rewrite (chunk_text_windows CHUNK_SIZE chunk_size_pos).
    rewrite ceil_div_small by lia.
    simpl. f_equal. apply substring_all. lia. }
  unfold requests. rewrite Hchunks. reflexivity.
Qed.

(** X9. In every run of the analysis, whatever the collaborators do, the
    requests it posts are at most one per chunk, with strictly increasing
    section numbers; each goes to the configured endpoint with the bearer
    token, carries the number of chunks as its section count, a section
    number [k] between 1 and that count, and the characters [1500 (k - 1)]
    up to [1500 k] of the text, between 1 and 1500 of them.  For a text of 1
    to 1500 characters the analysis posts nothing or the one request that
    carries the whole text as section 1 of 1, and posts it when the
    deliveries succeed. *)
Theorem posted_requests_are_bounded E text st :
  exists called,
    posts (trace (snd (analyze_pdf_content E text st))) = posts (trace st) ++ called /\
    length called <= ceil_div (String.length text) 1500 /\
    StronglySorted lt (map section_number called) /\
    Forall (fun req =>
              url req = MODEL_API_URL /\
              bearer req = ("Bearer " ++ MODEL_API_KEY E)%string /\
              section_count req = ceil_div (String.length text) 1500 /\
              1 <= section_number req <= section_count req /\
              1 <= String.length (section_text req) <= 1500 /\
              section_text req =
                PyStr.slice text ((section_number req - 1) * 1500) (section_number req * 1500))
           called /\
    (1 <= String.length text <= 1500 ->
     (called = [] \/ called = [request_for E 0 1 text]) /\
     (deliveries_ok E -> called = [request_for E 0 1 text])).
Proof.
  destruct (analyze_posts E text st) as (called & Hposts & Hsub & Hall).
  exists called. split; [exact Hposts|].
  split.
  { apply sublist_length in Hsub.
    rewrite (proj2 (requests_texts E text)) in Hsub.
    unfold content_chunks in Hsub.
    now rewrite (length_chunk_text CHUNK_SIZE chunk_size_pos) in Hsub. }
  split.
  { apply (sorted_of_sublist _ (map section_number (requests E text))).
    - now apply fmap_sublist.
    - destruct (section_numbers E (length (content_chunks text)) (content_chunks text) 0)
        as [Hnum _].
      fold (requests E text) in Hnum. rewrite Hnum. apply seq_strictly_sorted. }
  split.
  { eapply Forall_of_sublist; [exact Hsub|]. apply requests_shape. }
  intros Hlen. rewrite (requests_one E text Hlen) in Hsub, Hall.
  split; [|exact Hall].
  inversion Hsub as [|x l1 l2 Hrest|x l1 l2 Hrest]; subst.
  - right. apply sublist_nil_r in Hrest. now subst.
  - left. now apply sublist_nil_r in Hrest.
Qed.

Lemma posted_requests_are_bounded_witness :
  posts (trace (snd (analyze_pdf_content mixed_env "abc" two_subscribers))) =
    [request_for mixed_env 0 1 "abc"].
Proof.
  destruct (posted_requests_are_bounded mixed_env "abc" two_subscribers)
    as (called & Hposts & _ & _ & _ & Hone).
  destruct Hone as [_ Hall]; [simpl; lia|].
  rewrite Hposts, Hall; [reflexivity|]. intros c text. reflexivity.
Defined.

Lemma raises_bind {A B} (P : exn -> Prop) (m : M A) (k : A -> M B) :
  raises_only P m -> (forall x, raises_only P (k x)) -> raises_only P (bind m k).
Proof.
  intros Hm Hk st error. unfold bind. specialize (Hm st).
  destruct (m st) as [[e|x] st1]; cbn [fst] in *.
  - intros [= <-]. now apply Hm.
  - apply Hk.
Qed.

(** What the body of a [try] raises does not matter: only the handler's
    exceptions leave the statement. *)
Lemma raises_try_except {A} (P : exn -> Prop) (body : M A) handler :
  (forall e, raises_only P (handler e)) -> raises_only P (try_except body handler).
Proof.
  intros Hk st error. unfold try_except.
  destruct (body st) as [[e|x] st1]; cbn [fst]; [apply Hk|discriminate].
Qed.

Lemma raises_broadcast E s : raises_only (delivery_failure E) (broadcast_status_update E s).
Proof.
  intros st error Hret.
  destruct (broadcast_outcome E s st) as [Hok|(c & what & Hc & Hfail)]; [congruence|].
  rewrite Hfail in Hret. injection Hret as <-. exists c, (render s), what. auto.
Qed.

Lemma raises_never {A} (P : exn -> Prop) (m : M A) :
  (forall st, exists x, fst (m st) = inr x) -> raises_only P m.
Proof. intros Hm st error Hret. destruct (Hm st) as [x Hx]. congruence. Qed.

Lemma raises_weaken {A} (P Q : exn -> Prop) (m : M A) :
  (forall e, P e -> Q e) -> raises_only P m -> raises_only Q m.
Proof. intros HPQ Hm st error Hret. eauto. Qed.

Lemma raises_process_chunk E total i chunk :
  raises_only (delivery_failure E) (process_chunk E total i chunk).
Proof.
  unfold process_chunk. apply raises_bind; [apply raises_broadcast|]. intros _.
  apply raises_try_except. intros e. apply raises_broadcast.
Qed.

Lemma raises_for_enumerate {A} P (body : nat -> A -> M unit) :
  (forall i x, raises_only P (body i x)) ->
  forall items i, raises_only P (for_enumerate body i items).
Proof.
  intros Hbody. induction items as [|x items IH]; intros i; simpl.
  - apply raises_never. intros st. now exists tt.
  - apply raises_bind; [apply Hbody|]. intros _. apply IH.
Qed.

Lemma raises_analyze E text :
  raises_only (fun error => delivery_failure E error \/
                            exists results, aggregate results = inl error)
    (analyze_pdf_content E text).
Proof.
  unfold analyze_pdf_content.
  apply raises_bind;
    [eapply raises_weaken; [|apply raises_broadcast]; intros e He; now left|].
  intros _. apply raises_bind; [apply raises_never; intros st; now exists tt|].
  intros _. apply raises_bind.
  { eapply raises_weaken; [|apply raises_for_enumerate; intros; apply raises_process_chunk].
    intros e He. now left. }
  intros _. apply raises_bind; [apply raises_never; intros st; now exists st|].
  intros st'. apply raises_bind.
  { intros st error. destruct (aggregate (all_analysis_results st')) as [e|agg] eqn:Hagg;
      cbn [lift raise ret fst]; [|discriminate].
    intros [= <-]. right. eauto. }
  intros agg. apply raises_bind;
    [eapply raises_weaken; [|apply raises_broadcast]; intros e He; now left|].
  intros _. apply raises_never. intros st. now exists agg.
Qed.

(** X10. Whatever the model endpoint or the parsing raises stays inside the
    loop body: the only exception that leaves the body is one raised by the
    send to a subscriber, and the only exceptions that leave the analysis
    are that and what the aggregation raises. *)
Theorem model_errors_stay_in_the_loop E :
  (forall total chunk_index chunk st error,
      fst (process_chunk E total chunk_index chunk st) = inl error ->
      delivery_failure E error) /\
  (forall text st error,
      fst (analyze_pdf_content E text st) = inl error ->
      delivery_failure E error \/ exists results, aggregate results = inl error).
Proof.
  split.
  - intros total chunk_index chunk. apply raises_process_chunk.
  - intros text. apply raises_analyze.
Qed.

Lemma model_errors_stay_in_the_loop_witness :
  delivery_failure empty_docs_env (KeyError "summary") \/
  exists results, aggregate results = inl (KeyError "summary").
Proof.
  apply (proj2 (model_errors_stay_in_the_loop empty_docs_env) (pages_text [long_page]) idle).
  vm_compute. reflexivity.
Defined.

(** ** Results the aggregation cannot take *)

Lemma strs_not_str vs :
  Exists (fun v => is_str v = false) vs -> Py.strs vs = inl TypeError.
Proof.
  induction vs as [|v vs IH]; intros Hex; [now inversion Hex|].
  destruct v as [| | | |s| |]; try reflexivity.
  simpl. rewrite IH; [reflexivity|].
  inversion Hex as [? ? Hhere|]; subst; [discriminate Hhere|assumption].
Qed.

Lemma summaries_bad R :
  Forall (fun r => lacks_summary r = false) R ->
  Exists (fun r => bad_summary r = true) R ->
  summaries R = inl TypeError \/
  exists vs, summaries R = inr vs /\ Exists (fun v => is_str v = false) vs.
Proof.
  induction 1 as [|r R Hr HR IH]; intros Hex; [now inversion Hex|].
  destruct r as [| | | | | |fields]; try (now left).
  simpl in Hr. cbn [summaries Py.getitem].
  destruct (Py.dict_lookup "summary" fields) as [v|] eqn:Hl; [|discriminate].
  cbn [rbind].
  inversion Hex as [? ? Hhere|? ? Hthere]; subst.
  - simpl in Hhere. rewrite Hl in Hhere.
    destruct (summaries R) as [e|vs] eqn:HsR.
    + cbn [rbind].
      assert (He : e = TypeError).
      { clear -HR HsR. revert e HsR.
        induction HR as [|r R Hr HR IH]; intros e; [discriminate|].
        destruct r as [| | | | | |fields]; try (intros [= <-]; reflexivity).
        simpl in Hr. cbn [summaries Py.getitem].
        destruct (Py.dict_lookup "summary" fields); [|discriminate].
        cbn [rbind]. destruct (summaries R) as [e'|vs]; [|discriminate].
        cbn [rbind]. intros [= <-]. now apply IH. }
      subst e. now left.
    + right. exists (v :: vs). split; [reflexivity|]. left.
      now destruct v.
  - destruct (IH Hthere) as [->|(vs & -> & Hvs)]; [now left|].
    right. exists (v :: vs). split; [reflexivity|]. now right.
Qed.

(** X11. When no result lacks the summary key, a result that is not a dict,
    or whose summary is not a string, makes the aggregation raise
    [TypeError]. *)
Theorem aggregate_rejects_bad_summary R :
  Forall (fun r => lacks_summary r = false) R ->
  Exists (fun r => bad_summary r = true) R ->
  aggregate R = inl TypeError.
Proof.
  intros Hall Hex. unfold aggregate.
  destruct (summaries_bad R Hall Hex) as [->|(vs & -> & Hvs)]; [reflexivity|].
  cbn [rbind]. unfold Py.join. now rewrite strs_not_str.
Qed.

Lemma aggregate_rejects_bad_summary_witness :
  aggregate [JObj [("summary", JStr "A")]; JObj [("summary", JNull)]] = inl TypeError /\
  aggregate [JObj [("summary", JStr "A")]; JArr []] = inl TypeError.
Proof.
  split; apply aggregate_rejects_bad_summary;
    first [ apply Exists_cons_tl, Exists_cons_hd; reflexivity | repeat constructor ].
Defined.

Lemma summaries_str R :
  Forall (fun r => has_str_summary r = true) R ->
  summaries R = inr (map JStr (map summary_of R)).
Proof.
  induction 1 as [|r R Hr _ IH]; [reflexivity|].
  destruct r as [| | | | | |fields]; try discriminate.
  simpl in *. destruct (Py.dict_lookup "summary" fields) as [[| | | |s| |]|]; try discriminate.
  simpl. now rewrite IH.
Qed.

(** Over dicts, the comprehension for a list field raises nothing but
    [TypeError]. *)
Lemma collect_dicts key R :
  Forall (fun r => is_dict r = true) R ->
  collect key R = inl TypeError \/ exists items, collect key R = inr items.
Proof.
  induction 1 as [|r R Hr _ IH]; [right; now exists []|].
  destruct r as [| | | | | |fields]; try discriminate.
  cbn [collect Py.get].
  destruct (Py.dict_lookup key fields) as [v|]; cbn [rbind].
  - destruct v; cbn [Py.iter rbind]; try (now left);
      destruct IH as [->|[more ->]]; cbn [rbind]; eauto.
  - cbn [Py.iter rbind]. destruct IH as [->|[more ->]]; cbn [rbind]; eauto.
Qed.

Lemma collect_not_iterable key R :
  Forall (fun r => is_dict r = true) R ->
  Exists (fun r => field_not_iterable key r = true) R ->
  collect key R = inl TypeError.
Proof.
  induction 1 as [|r R Hr HR IH]; intros Hex; [now inversion Hex|].
  destruct r as [| | | | | |fields]; try discriminate.
  cbn [collect Py.get].
  destruct (Py.dict_lookup key fields) as [v|] eqn:Hl; cbn [rbind].
  - destruct v; cbn [Py.iter rbind]; try reflexivity;
      (rewrite IH; [reflexivity|]);
      (inversion Hex as [? ? Hhere|]; subst; [|assumption]);
      simpl in Hhere; rewrite Hl in Hhere; discriminate Hhere.
  - cbn [Py.iter rbind]. rewrite IH; [reflexivity|].
    inversion Hex as [? ? Hhere|]; subst; [|assumption].
    simpl in Hhere. rewrite Hl in Hhere. discriminate Hhere.
Qed.

Lemma has_str_summary_dict R :
  Forall (fun r => has_str_summary r = true) R -> Forall (fun r => is_dict r = true) R.
Proof.
  intros H. eapply Forall_impl; [exact H|]. intros r. now destruct r.
Qed.

(** Over dicts whose field [key] is iterable wherever it is present, the
    comprehension yields the items of the fields, result after result. *)
Lemma collect_iterable key R :
  Forall (fun r => is_dict r = true) R ->
  Forall (fun r => field_not_iterable key r = false) R ->
  collect key R = inr (concat (map (field_items key) R)).
Proof.
  induction 1 as [|r R Hr _ IH]; intros Hit; [reflexivity|].
  inversion Hit as [|? ? Hhere Hrest]; subst.
  destruct r as [| | | | | |fields]; try discriminate.
  cbn [collect Py.get map concat field_items].
  simpl in Hhere.
  destruct (Py.dict_lookup key fields) as [v|]; cbn [rbind].
  - destruct v; try discriminate Hhere; cbn [Py.iter rbind]; rewrite (IH Hrest); reflexivity.
  - cbn [Py.iter rbind]. rewrite (IH Hrest). reflexivity.
Qed.

Lemma length_chars s : length (PyStr.chars s) = String.length s.
Proof. induction s as [|c s IH]; simpl; [reflexivity|now rewrite IH]. Qed.

(** X12. Over dicts with string summaries, in a list of any length: when
    one of the three list fields of some result holds null, a boolean or a
    number, the aggregation raises [TypeError]; otherwise it returns, and
    each list field of the aggregate is the concatenation, result after
    result, of what iterating over that field yields: the items of a list,
    the keys of a dict and, for a field that holds a string, at any place of
    the list and under any key, its characters, one item each. *)
Theorem aggregate_iterates_fields R :
  Forall (fun r => has_str_summary r = true) R ->
  (Exists (fun r => field_not_iterable "abnormal_results" r = true) R \/
   Exists (fun r => field_not_iterable "charts" r = true) R \/
   Exists (fun r => field_not_iterable "recommendations" r = true) R ->
   aggregate R = inl TypeError) /\
  (Forall (fun r => field_not_iterable "abnormal_results" r = false) R ->
   Forall (fun r => field_not_iterable "charts" r = false) R ->
   Forall (fun r => field_not_iterable "recommendations" r = false) R ->
   aggregate R =
     inr (Aggregated (PyStr.join " " (map summary_of R))
            (concat (map (field_items "abnormal_results") R))
            (concat (map (field_items "charts") R))
            (concat (map (field_items "recommendations") R))) /\
   forall key before fields after text,
     R = before ++ JObj fields :: after ->
     Py.dict_lookup key fields = Some (JStr text) ->
     concat (map (field_items key) R) =
       concat (map (field_items key) before) ++
       map JStr (PyStr.chars text) ++
       concat (map (field_items key) after) /\
     length (map JStr (PyStr.chars text)) = String.length text).
Proof.
  intros Hall. pose proof (has_str_summary_dict R Hall) as Hdict. split.
  - intros Hbad. unfold aggregate. rewrite (summaries_str R Hall). cbn [rbind].
    unfold Py.join. rewrite strs_strings. cbn [rbind].
    destruct (collect_dicts "abnormal_results" R Hdict) as [->|[a Ha]]; [reflexivity|].
    destruct (collect_dicts "charts" R Hdict) as [Hc|[c Hc]].
    { rewrite Ha, Hc. reflexivity. }
    destruct (collect_dicts "recommendations" R Hdict) as [Hr|[r Hr]].
    { rewrite Ha, Hc, Hr. reflexivity. }
    destruct Hbad as [Hbad|[Hbad|Hbad]].
    + rewrite (collect_not_iterable _ R Hdict Hbad) in Ha. discriminate Ha.
    + rewrite (collect_not_iterable _ R Hdict Hbad) in Hc. discriminate Hc.
    + rewrite (collect_not_iterable _ R Hdict Hbad) in Hr. discriminate Hr.
  - intros Ha Hc Hr. split.
    + unfold aggregate. rewrite (summaries_str R Hall). cbn [rbind].
      unfold Py.join. rewrite strs_strings. cbn [rbind].
      rewrite !collect_iterable by assumption. reflexivity.
    + intros key before fields after text -> Hkey.
      rewrite map_app, concat_app. cbn [map concat field_items]. rewrite Hkey.
      split; [reflexivity|]. now rewrite length_map, length_chars.
Qed.

Lemma aggregate_iterates_fields_witness :
  aggregate [JObj [("summary", JStr "A"); ("charts", JNull)]] = inl TypeError /\
  aggregate mixed_fields =
    inr (Aggregated "A B C" [JStr "c"] [JInt 1; JStr "a"; JStr "b"; JNull] [JStr "k"]).
Proof.
  split.
  - apply (proj1 (aggregate_iterates_fields
                    [JObj [("summary", JStr "A"); ("charts", JNull)]]
                    ltac:(repeat constructor))).
    right. left. apply Exists_cons_hd. reflexivity.
  - apply (proj1 (proj2 (aggregate_iterates_fields mixed_fields ltac:(repeat constructor))
                    ltac:(repeat constructor) ltac:(repeat constructor)
                    ltac:(repeat constructor))).
Defined.

(** X13. A PDF without pages is a success: with the deliveries succeeding
    the endpoint returns the empty aggregate (empty summary, no items) and
    issues no model call. *)
Theorem empty_document_succeeds E uploaded_file name st :
  deliveries_ok E ->
  filename uploaded_file = Some name ->
  PyStr.endswith name ".pdf" = true ->
  pdf_reader E (file_bytes uploaded_file) = inr [] ->
  fst (handle_pdf_upload E uploaded_file st) = inr (Aggregated "" [] [] []) /\
  model_events (trace (snd (handle_pdf_upload E uploaded_file st))) = model_events (trace st).
Proof.
  intros Hok Hname Hpdf Hreader. split.
  - rewrite (handle_run E uploaded_file name [] st Hok Hname Hpdf Hreader). reflexivity.
  - rewrite (handle_run_events E uploaded_file name [] st Hok Hname Hpdf Hreader).
    cbn. apply app_nil_r.
Qed.

Lemma empty_document_succeeds_witness :
  fst (handle_pdf_upload no_pages_env pdf_upload two_subscribers) =
    inr (Aggregated "" [] [] []).
Proof.
  refine (proj1 (empty_document_succeeds no_pages_env pdf_upload "report.pdf" two_subscribers
                   _ eq_refl eq_refl eq_refl)).
  intros c text. reflexivity.
Defined.

Lemma message_content_str result_json content :
  message_content result_json = inr (JStr content) <-> carries_content result_json content.
Proof.
  split.
  - unfold message_content.
    destruct result_json as [| | | | | |fields]; try discriminate.
    cbn [Py.getitem].
    destruct (Py.dict_lookup "choices" fields) as [choices|] eqn:Hchoices; [|discriminate].
    cbn [rbind].
    destruct choices as [| | | |s|items|cf]; try discriminate.
    + cbn [Py.getindex]. destruct (nth_error (PyStr.chars s) 0); discriminate.
    + cbn [Py.getindex]. destruct items as [|choice more]; [discriminate|].
      cbn [nth_error rbind].
      destruct choice as [| | | | | |choice_fields]; try discriminate.
      cbn [Py.getitem].
      destruct (Py.dict_lookup "message" choice_fields) as [message|] eqn:Hmessage;
        [|discriminate].
      cbn [rbind].
      destruct message as [| | | | | |message_fields]; try discriminate.
      cbn [Py.getitem].
      destruct (Py.dict_lookup "content" message_fields) as [v|] eqn:Hcontent;
        [|discriminate].
      intros [= ->]. exists fields, choice_fields, more, message_fields. auto.
  - intros (fields & choice_fields & more & message_fields & -> & Hc & Hm & Hs).
    unfold message_content. cbn [Py.getitem]. rewrite Hc. cbn [rbind Py.getindex nth_error].
    cbn [Py.getitem]. rewrite Hm. cbn [rbind Py.getitem]. now rewrite Hs.
Qed.

Lemma chunk_outcome_inr E req parsed :
  chunk_outcome E req = inr parsed <->
  exists status_code result_json content,
    http_post E req = inr (HttpResponse status_code (inr result_json)) /\
    status_code < 400 /\
    carries_content result_json content /\
    json_loads E content = Some parsed.
Proof.
  unfold chunk_outcome. split.
  - destruct (http_post E req) as [what|[status_code body]]; [discriminate|].
    cbn [external rbind]. unfold raise_for_status. cbn [resp_status resp_json].
    destruct (Nat.leb_spec 400 status_code) as [Hbad|Hgood]; [discriminate|].
    cbn [rbind]. destruct body as [what|result_json]; [discriminate|].
    cbn [external rbind].
    destruct (message_content result_json) as [e|content] eqn:Hcontent; [discriminate|].
    cbn [rbind]. unfold loads.
    destruct content as [| | | |s| |]; try discriminate.
    destruct (json_loads E s) as [v|] eqn:Hloads; [|discriminate].
    intros [= ->]. exists status_code, result_json, s.
    apply message_content_str in Hcontent. auto.
  - intros (status_code & result_json & content & -> & Hstatus & Hcarries & Hloads).
    cbn [external rbind]. unfold raise_for_status. cbn [resp_status resp_json].
    destruct (Nat.leb_spec 400 status_code) as [Hbad|Hgood]; [lia|].
    cbn [rbind external]. apply message_content_str in Hcarries. rewrite Hcarries.
    cbn [rbind loads]. now rewrite Hloads.
Qed.

(** X14. With the deliveries succeeding, one pass of the loop body appends
    a result exactly when the endpoint answered the chunk's request with a
    status below 400 and a JSON object whose ["choices"] is a list starting
    with an object whose ["message"] is an object whose ["content"] is a
    string that [json.loads] accepts; the appended result is the parsed
    content. *)
Theorem chunk_result_added_iff E total chunk_index chunk st parsed :
  deliveries_ok E ->
  all_analysis_results (snd (process_chunk E total chunk_index chunk st)) =
    all_analysis_results st ++ [parsed] <->
  exists status_code result_json content,
    http_post E (request_for E chunk_index total chunk) =
      inr (HttpResponse status_code (inr result_json)) /\
    status_code < 400 /\
    carries_content result_json content /\
    json_loads E content = Some parsed.
Proof.
  intros Hok. rewrite <- chunk_outcome_inr.
  destruct (process_chunk_run E total chunk_index chunk st Hok)
    as (st' & ss & Hrun & (_ & _ & _ & Hr) & _).
  rewrite Hrun. cbn [snd]. rewrite Hr, successes_one.
  destruct (chunk_outcome E (request_for E chunk_index total chunk)) as [e|p].
  - split; [|discriminate]. rewrite app_nil_r. intros H.
    apply (f_equal (@length json)) in H. rewrite length_app in H. simpl in H. lia.
  - split.
    + intros H. apply app_inv_head in H. now injection H as ->.
    + now intros [= ->].
Qed.

Lemma chunk_result_added_iff_witness :
  all_analysis_results
    (snd (process_chunk mixed_env 2 1 "text" two_subscribers)) = [JObj [("summary", JStr "B")]].
Proof.
  apply (proj2 (chunk_result_added_iff mixed_env 2 1 "text" two_subscribers
                  (JObj [("summary", JStr "B")]) ltac:(intros c text; reflexivity))).
  exists 200, (JObj [("choices", JArr [JObj [("message", JObj [("content", JStr doc_summary_b)])]])]),
    doc_summary_b.
  split; [reflexivity|]. split; [lia|]. split; [|reflexivity].
  eexists _, _, _, _. repeat split; reflexivity.
Defined.

